(** * File-segment lifecycle and row formatting

    Shallow embedding of [src/Common/FileSegment.h] and
    [src/Functions/formatRow.cpp].

    The header declares the data of a file segment (the state enumeration,
    [Range], the counters and flags) and defines a handful of inline
    members ([Range::size], [availableSize], [isDownloaded], ...).  The
    bodies of the remaining members live in a translation unit that is not
    part of the sources at hand; those members are modelled from the prose
    specification and each such definition says so. *)

From stdpp Require Import base numbers list strings gmap.
From Stdlib Require Import ZArith Lia.
From Stdlib.Strings Require Import Byte.

Local Open Scope Z_scope.

(** ** Machine integers *)

(** [size_t] is a 64-bit unsigned integer; arithmetic wraps modulo [2^64]. *)
Definition size_t_modulus : Z := 2 ^ 64.

Definition wrap (z : Z) : Z := z mod size_t_modulus.

Definition is_size_t (z : Z) : Prop := 0 <= z < size_t_modulus.

Definition size_add (a b : Z) : Z := wrap (a + b).
Definition size_sub (a b : Z) : Z := wrap (a - b).

(** ** [FileSegment::State] *)

Inductive State : Type :=
| DOWNLOADED
| EMPTY
| DOWNLOADING
| PARTIALLY_DOWNLOADED_NO_CONTINUATION
| PARTIALLY_DOWNLOADED
| SKIP_CACHE.

Definition State_eqb (a b : State) : bool :=
  match a, b with
  | DOWNLOADED, DOWNLOADED
  | EMPTY, EMPTY
  | DOWNLOADING, DOWNLOADING
  | PARTIALLY_DOWNLOADED_NO_CONTINUATION, PARTIALLY_DOWNLOADED_NO_CONTINUATION
  | PARTIALLY_DOWNLOADED, PARTIALLY_DOWNLOADED
  | SKIP_CACHE, SKIP_CACHE => true
  | _, _ => false
  end.

(** ** [FileSegment::Range] *)

Module Range.

(** An interval [[left, right]] including both boundaries. *)
Record t : Type := Range { left : Z; right : Z }.

(** [operator==] *)
Definition eqb (a b : t) : bool :=
  (left a =? left b) && (right a =? right b).

(** [size_t size() const { return right - left + 1; }], evaluated in
    [size_t]: the subtraction wraps, then the addition wraps. *)
Definition size (r : t) : Z := size_add (size_sub (right r) (left r)) 1.

End Range.

(** ** Errors and the operation monad *)

(** Modelled from the spec: the header names no error type; these are the
    error kinds the segment surfaces. *)
Inductive ErrorKind : Type :=
| DetachedSegment
| NotDownloader
| IllegalState
| ReservationFailed
| WriteFailed
| Timeout.

Inductive Outcome (A : Type) : Type :=
| Returned (a : A)
| Raised (e : ErrorKind).

Arguments Returned {A} a.
Arguments Raised {A} e.

(** ** The segment *)

(** The data members of [class FileSegment].  The handles to the remote
    reader, the cache writer, the owning cache and the logger, the two
    mutexes, the condition variable and the advisory counters carry no
    information the operations below decide on and are left out.  The last
    four fields are not members of the class: the prose specification speaks
    of a reservation-failure flag, a failed-download substate and of the
    once-only pair [writeInMemory]/[finalizeWrite], and the model keeps
    them explicitly. *)
Record FileSegment : Type := mkFileSegment {
  segment_range : Range.t;
  download_state : State;
  downloader_id : string;
  downloaded_size : Z;
  reserved_size : Z;
  is_detached : bool;
  is_downloaded : bool;
  reservation_failed : bool;
  download_failed : bool;
  in_memory : option Z;
  write_finalized : bool
}.

Definition set_download_state (st : State) (s : FileSegment) : FileSegment :=
  mkFileSegment (segment_range s) st (downloader_id s) (downloaded_size s)
    (reserved_size s) (is_detached s) (is_downloaded s)
    (reservation_failed s) (download_failed s) (in_memory s)
    (write_finalized s).

Definition set_downloader_id (id : string) (s : FileSegment) : FileSegment :=
  mkFileSegment (segment_range s) (download_state s) id (downloaded_size s)
    (reserved_size s) (is_detached s) (is_downloaded s)
    (reservation_failed s) (download_failed s) (in_memory s)
    (write_finalized s).

Definition set_downloaded_size (n : Z) (s : FileSegment) : FileSegment :=
  mkFileSegment (segment_range s) (download_state s) (downloader_id s) n
    (reserved_size s) (is_detached s) (is_downloaded s)
    (reservation_failed s) (download_failed s) (in_memory s)
    (write_finalized s).

Definition set_reserved_size (n : Z) (s : FileSegment) : FileSegment :=
  mkFileSegment (segment_range s) (download_state s) (downloader_id s)
    (downloaded_size s) n (is_detached s) (is_downloaded s)
    (reservation_failed s) (download_failed s) (in_memory s)
    (write_finalized s).

Definition set_is_detached (b : bool) (s : FileSegment) : FileSegment :=
  mkFileSegment (segment_range s) (download_state s) (downloader_id s)
    (downloaded_size s) (reserved_size s) b (is_downloaded s)
    (reservation_failed s) (download_failed s) (in_memory s)
    (write_finalized s).

Definition set_is_downloaded (b : bool) (s : FileSegment) : FileSegment :=
  mkFileSegment (segment_range s) (download_state s) (downloader_id s)
    (downloaded_size s) (reserved_size s) (is_detached s) b
    (reservation_failed s) (download_failed s) (in_memory s)
    (write_finalized s).

Definition set_reservation_failed (b : bool) (s : FileSegment) : FileSegment :=
  mkFileSegment (segment_range s) (download_state s) (downloader_id s)
    (downloaded_size s) (reserved_size s) (is_detached s) (is_downloaded s)
    b (download_failed s) (in_memory s) (write_finalized s).

Definition set_download_failed (b : bool) (s : FileSegment) : FileSegment :=
  mkFileSegment (segment_range s) (download_state s) (downloader_id s)
    (downloaded_size s) (reserved_size s) (is_detached s) (is_downloaded s)
    (reservation_failed s) b (in_memory s) (write_finalized s).

Definition set_in_memory (m : option Z) (s : FileSegment) : FileSegment :=
  mkFileSegment (segment_range s) (download_state s) (downloader_id s)
    (downloaded_size s) (reserved_size s) (is_detached s) (is_downloaded s)
    (reservation_failed s) (download_failed s) m (write_finalized s).

Definition set_write_finalized (b : bool) (s : FileSegment) : FileSegment :=
  mkFileSegment (segment_range s) (download_state s) (downloader_id s)
    (downloaded_size s) (reserved_size s) (is_detached s) (is_downloaded s)
    (reservation_failed s) (download_failed s) (in_memory s) b.

(** A member function runs on the segment, may change it, and either
    returns or raises; the segment is threaded through in both cases (a
    failed [write] leaves its mark on the segment before it raises). *)
Definition Op (A : Type) : Type := FileSegment -> Outcome A * FileSegment.

Definition ret {A} (a : A) : Op A := fun s => (Returned a, s).

Definition raise {A} (e : ErrorKind) : Op A := fun s => (Raised e, s).

Definition bind {A B} (m : Op A) (k : A -> Op B) : Op B :=
  fun s =>
    match m s with
    | (Returned a, s') => k a s'
    | (Raised e, s') => (Raised e, s')
    end.

Definition get : Op FileSegment := fun s => (Returned s, s).

Definition modify (f : FileSegment -> FileSegment) : Op unit :=
  fun s => (Returned tt, f s).

Notation "x <~ m ; k" := (bind m (fun x => k))
  (at level 20, m at level 100, k at level 200, only parsing).
Notation "m ;> k" := (bind m (fun _ => k))
  (at level 100, k at level 200, right associativity, only parsing).

(** Result and final segment of running an operation. *)
Definition outcome {A} (m : Op A) (s : FileSegment) : Outcome A := fst (m s).
Definition after {A} (m : Op A) (s : FileSegment) : FileSegment := snd (m s).

(** ** Inline members of the header *)

(** [const Range & range() const { return segment_range; }] *)
Definition range (s : FileSegment) : Range.t := segment_range s.

(** [size_t offset() const { return range().left; }] *)
Definition offset (s : FileSegment) : Z := Range.left (range s).

(** [bool isDownloaded() const { return is_downloaded.load(); }] *)
Definition isDownloaded (s : FileSegment) : bool := is_downloaded s.

(** [size_t availableSize() const { return reserved_size - downloaded_size; }] *)
Definition availableSize (s : FileSegment) : Z :=
  size_sub (reserved_size s) (downloaded_size s).

(** [bool isDetached(segment_lock) const { return is_detached; }] *)
Definition isDetached (s : FileSegment) : bool := is_detached s.

(** ** Members whose bodies are not in the header *)

Local Open Scope string_scope.
Local Open Scope list_scope.
Local Open Scope Z_scope.

(** Modelled from the spec: the constructor body is missing.  A segment is
    created for [size_] bytes starting at [offset_], either [EMPTY] with no
    bytes yet or [DOWNLOADED] (preloaded), in which case the whole range
    counts as downloaded and reserved and the atomic flag is set. *)
Definition create (offset_ size_ : Z) (download_state_ : State) : FileSegment :=
  let preloaded := State_eqb download_state_ DOWNLOADED in
  {| segment_range := Range.Range offset_ (size_sub (size_add offset_ size_) 1);
     download_state := download_state_;
     downloader_id := EmptyString;
     downloaded_size := if preloaded then size_ else 0;
     reserved_size := if preloaded then size_ else 0;
     is_detached := false;
     is_downloaded := preloaded;
     reservation_failed := false;
     download_failed := false;
     in_memory := None;
     write_finalized := false |}.

(** Modelled from the spec: the body of [state()] is missing; it is the
    observer of the current state. *)
Definition state (s : FileSegment) : State := download_state s.

(** Modelled from the spec: the body of [getDownloader()] is missing; it
    observes [downloader_id]. *)
Definition getDownloader (s : FileSegment) : string := downloader_id s.

(** Modelled from the spec: the body of [getDownloadedSize()] is missing;
    it observes [downloaded_size]. *)
Definition getDownloadedSize (s : FileSegment) : Z := downloaded_size s.

(** Modelled from the spec: the body of [getDownloadOffset()] is missing;
    the next byte to write sits at [range.left + downloaded_size]. *)
Definition getDownloadOffset (s : FileSegment) : Z :=
  size_add (Range.left (range s)) (downloaded_size s).

(** Modelled from the spec: the body of [hasFinalizedState()] is missing;
    the terminal states are [DOWNLOADED],
    [PARTIALLY_DOWNLOADED_NO_CONTINUATION] and [SKIP_CACHE]. *)
Definition hasFinalizedState (s : FileSegment) : bool :=
  match download_state s with
  | DOWNLOADED | PARTIALLY_DOWNLOADED_NO_CONTINUATION | SKIP_CACHE => true
  | EMPTY | DOWNLOADING | PARTIALLY_DOWNLOADED => false
  end.

(** Modelled from the spec: the body of [isDownloaderImpl] is missing.  The
    identity of the caller ([getCallerId()]) is an explicit argument; a
    caller is the downloader when a downloader is set and the ids match. *)
Definition isDownloaderImpl (caller : string) (s : FileSegment) : bool :=
  negb (String.eqb (downloader_id s) EmptyString) && String.eqb caller (downloader_id s).

(** Modelled from the spec: the body of [throwIfDetachedUnlocked] is
    missing.  The header declares it [[[noreturn]]]: it never returns to
    its caller, it raises the detached-segment error. *)
Definition throwIfDetachedUnlocked {A} : Op A := raise DetachedSegment.

(** Modelled from the spec: the body of [throwIfDetached] is missing.  It
    is [[[noreturn]]] as well: the public entry that takes the segment lock
    and raises. *)
Definition throwIfDetached {A} : Op A := throwIfDetachedUnlocked.

(** Modelled from the spec: the body of [assertNotDetached] is missing; it
    is the gate in front of every operation that returns a normal result. *)
Definition assertNotDetached : Op unit :=
  s <~ get;
  if isDetached s then throwIfDetachedUnlocked else ret tt.

(** Modelled from the spec: mutating operations of the downloader raise
    [NotDownloader] for any other caller. *)
Definition assertIsDownloader (caller : string) : Op unit :=
  s <~ get;
  if isDownloaderImpl caller s then ret tt else raise NotDownloader.

(** Modelled from the spec: the body of [setDownloaded] is missing; the
    state becomes [DOWNLOADED] and the atomic flag mirrors it. *)
Definition setDownloaded (s : FileSegment) : FileSegment :=
  set_is_downloaded true (set_download_state DOWNLOADED s).

(** Modelled from the spec: the body of [getOrSetDownloader] is missing.
    In [EMPTY] or [PARTIALLY_DOWNLOADED] the caller installs its id and the
    segment becomes [DOWNLOADING]; otherwise the existing downloader id is
    returned, or the sentinel ["None"] when there is no downloader and the
    state is terminal. *)
Definition getOrSetDownloader (caller : string) : Op string :=
  assertNotDetached ;>
  s <~ get;
  match download_state s with
  | EMPTY | PARTIALLY_DOWNLOADED =>
      modify (fun s => set_download_state DOWNLOADING (set_downloader_id caller s)) ;>
      ret caller
  | _ =>
      if String.eqb (downloader_id s) EmptyString && hasFinalizedState s
      then ret "None"
      else ret (downloader_id s)
  end.

(** Modelled from the spec: the body of [resetDownloader] is missing.  It
    clears the downloader and makes the segment [PARTIALLY_DOWNLOADED]
    unless its state is already terminal. *)
Definition resetDownloader (caller : string) : Op unit :=
  assertNotDetached ;>
  assertIsDownloader caller ;>
  modify (fun s =>
    set_downloader_id EmptyString
      (if hasFinalizedState s then s
       else set_download_state PARTIALLY_DOWNLOADED s)).

(** Modelled from the spec: the body of [reserve] is missing.  No more is
    ever downloaded than the range holds, after every operation, so a
    request that reaches past the end of the range
    ([downloaded_size + size > range.size()], compared as exact integers)
    is rejected and leaves the segment as it is.  Otherwise the cache is
    asked for [max(0, n - available)] more bytes; [granted] is its answer.
    A grant extends [reserved_size] by that amount, a denial raises the
    reservation-failure flag that the next completion inspects. *)
Definition reserve (caller : string) (size : Z) (granted : bool) : Op bool :=
  assertNotDetached ;>
  assertIsDownloader caller ;>
  s <~ get;
  if Range.size (range s) <? downloaded_size s + size then raise IllegalState
  else
    let extra := Z.max 0 (size - availableSize s) in
    if granted
    then modify (set_reserved_size (size_add (reserved_size s) extra)) ;> ret true
    else modify (set_reservation_failed true) ;> ret false.

(** Modelled from the spec: the body of [write] is missing.  The write goes
    to [offset_ = range.left + downloaded_size] and needs [size] reserved
    bytes; [io_ok] is the result of the local writer.  A successful write
    advances [downloaded_size]; a failed one marks the failed-download
    substate and raises. *)
Definition write (caller : string) (size offset_ : Z) (io_ok : bool) : Op unit :=
  assertNotDetached ;>
  assertIsDownloader caller ;>
  s <~ get;
  if negb (offset_ =? getDownloadOffset s) then raise IllegalState
  else if availableSize s <? size then raise ReservationFailed
  else if io_ok
  then modify (set_downloaded_size (size_add (downloaded_size s) size))
  else modify (set_download_failed true) ;> raise WriteFailed.

(** Modelled from the spec: the body of [writeInMemory] is missing.  It
    buffers a single write of [size] bytes, which must be reserved; a second
    call is an error. *)
Definition writeInMemory (caller : string) (size : Z) : Op unit :=
  assertNotDetached ;>
  assertIsDownloader caller ;>
  s <~ get;
  match in_memory s with
  | Some _ => raise IllegalState
  | None =>
      if availableSize s <? size then raise ReservationFailed
      else modify (set_in_memory (Some size))
  end.

(** Modelled from the spec: the body of [finalizeWrite] is missing.  It
    makes the buffered bytes durable and returns their number; it needs a
    preceding [writeInMemory], the reservation for the bytes it writes, and
    a second call is an error. *)
Definition finalizeWrite (caller : string) : Op Z :=
  assertNotDetached ;>
  assertIsDownloader caller ;>
  s <~ get;
  if write_finalized s then raise IllegalState
  else match in_memory s with
       | None => raise IllegalState
       | Some size =>
           if availableSize s <? size then raise ReservationFailed
           else
             modify (fun s => set_write_finalized true
                      (set_downloaded_size (size_add (downloaded_size s) size) s)) ;>
             ret size
       end.

(** Modelled from the spec: the body of [complete(State)] is missing.
    [DOWNLOADED] requires the whole range to be downloaded,
    [PARTIALLY_DOWNLOADED_NO_CONTINUATION] requires the reservation-failure
    flag; anything else is rejected.  Leaving [DOWNLOADING] clears the
    downloader. *)
Definition complete (caller : string) (st : State) : Op unit :=
  assertNotDetached ;>
  assertIsDownloader caller ;>
  s <~ get;
  match st with
  | DOWNLOADED =>
      if downloaded_size s =? Range.size (range s)
      then modify (fun s => set_downloader_id EmptyString (setDownloaded s))
      else raise IllegalState
  | PARTIALLY_DOWNLOADED_NO_CONTINUATION =>
      if reservation_failed s
      then modify (fun s => set_downloader_id EmptyString
                    (set_download_state PARTIALLY_DOWNLOADED_NO_CONTINUATION s))
      else raise IllegalState
  | _ => raise IllegalState
  end.

(** Modelled from the spec: the state an abandoned download is left in.
    After a denied reservation it is [SKIP_CACHE] when nothing was
    downloaded and [PARTIALLY_DOWNLOADED_NO_CONTINUATION] otherwise; a
    failed write gives [PARTIALLY_DOWNLOADED_NO_CONTINUATION]; in all other
    cases the download may be resumed. *)
Definition abandoned_state (s : FileSegment) : State :=
  if reservation_failed s
  then (if downloaded_size s =? 0 then SKIP_CACHE
        else PARTIALLY_DOWNLOADED_NO_CONTINUATION)
  else if download_failed s then PARTIALLY_DOWNLOADED_NO_CONTINUATION
  else PARTIALLY_DOWNLOADED.

(** Modelled from the spec: the body of [completeUnlocked], the completion
    a dropped holder runs through [complete(cache_lock)], is missing.
    [last_holder] is the answer of [lastFileSegmentHolder()].  A detached
    segment keeps its state (its file is deleted and it leaves the index);
    otherwise the last holder of a segment that is [EMPTY], or [DOWNLOADING]
    with the caller as downloader, moves it to [abandoned_state].  The
    downloader id is cleared. *)
Definition completeUnlocked (caller : string) (last_holder : bool) : Op unit :=
  s <~ get;
  (if isDetached s then ret tt
   else if last_holder
           && (State_eqb (download_state s) EMPTY
               || (State_eqb (download_state s) DOWNLOADING
                   && isDownloaderImpl caller s))
   then modify (set_download_state (abandoned_state s))
   else ret tt) ;>
  modify (set_downloader_id EmptyString).

(** Modelled from the spec: the body of [detach] is missing; it marks the
    segment detached. *)
Definition detach : Op unit := modify (set_is_detached true).

(** Modelled from the spec: the body of [wait] is missing.  A caller blocks
    only while the segment is [DOWNLOADING] with bytes still missing. *)
Definition wait_blocks (s : FileSegment) : bool :=
  State_eqb (download_state s) DOWNLOADING
  && (downloaded_size s <? Range.size (range s)).

(** Modelled from the spec: a blocked waiter is released when
    [downloaded_size] has advanced or the state has left [DOWNLOADING]. *)
Definition wait_released (entry now : FileSegment) : bool :=
  (downloaded_size entry <? downloaded_size now)
  || negb (State_eqb (download_state now) DOWNLOADING).

(** Modelled from the spec: the wake-ups of one bounded wait.  [wakeups]
    lists the segment as the waiter finds it under the segment mutex at
    each notification that arrives before the timeout; the predicate is
    checked again at each of them.  When the list is used up the wait has
    timed out and the waiter leaves with what it observed last. *)
Fixpoint wait_loop (entry observed : FileSegment) (wakeups : list FileSegment)
  : FileSegment :=
  match wakeups with
  | [] => observed
  | now :: rest =>
      if wait_released entry now then now else wait_loop entry now rest
  end.

(** Modelled from the spec: [wait] is gated by [assertNotDetached] like
    every operation that returns a normal result, so it raises on a segment
    that is detached when the call is made.  Otherwise it returns the
    observed state; it changes nothing on the segment and a timeout is no
    error. *)
Definition wait (wakeups : list FileSegment) : Op State :=
  assertNotDetached ;>
  s <~ get;
  if wait_blocks s
  then ret (download_state (wait_loop s s wakeups))
  else ret (download_state s).

(** ** Runs of a segment *)

(** One call on a segment, with the identity of the caller and the answers
    of the collaborators (cache, local writer, holder count). *)
Inductive Call : Type :=
| CallGetOrSetDownloader (caller : string)
| CallResetDownloader (caller : string)
| CallReserve (caller : string) (size : Z) (granted : bool)
| CallWrite (caller : string) (size offset_ : Z) (io_ok : bool)
| CallWriteInMemory (caller : string) (size : Z)
| CallFinalizeWrite (caller : string)
| CallComplete (caller : string) (st : State)
| CallCompleteUnlocked (caller : string) (last_holder : bool)
| CallWait (wakeups : list FileSegment)
| CallDetach.

(** The segment a call leaves behind, whether it returned or raised. *)
Definition exec (c : Call) (s : FileSegment) : FileSegment :=
  match c with
  | CallGetOrSetDownloader caller => after (getOrSetDownloader caller) s
  | CallResetDownloader caller => after (resetDownloader caller) s
  | CallReserve caller size granted => after (reserve caller size granted) s
  | CallWrite caller size offset_ io_ok => after (write caller size offset_ io_ok) s
  | CallWriteInMemory caller size => after (writeInMemory caller size) s
  | CallFinalizeWrite caller => after (finalizeWrite caller) s
  | CallComplete caller st => after (complete caller st) s
  | CallCompleteUnlocked caller last_holder =>
      after (completeUnlocked caller last_holder) s
  | CallWait wakeups => after (wait wakeups) s
  | CallDetach => after detach s
  end.

(** Whether a call raised, and with which error. *)
Definition raised (c : Call) (s : FileSegment) : option ErrorKind :=
  let err {A} (o : Outcome A) :=
    match o with Returned _ => None | Raised e => Some e end in
  match c with
  | CallGetOrSetDownloader caller => err (outcome (getOrSetDownloader caller) s)
  | CallResetDownloader caller => err (outcome (resetDownloader caller) s)
  | CallReserve caller size granted => err (outcome (reserve caller size granted) s)
  | CallWrite caller size offset_ io_ok =>
      err (outcome (write caller size offset_ io_ok) s)
  | CallWriteInMemory caller size => err (outcome (writeInMemory caller size) s)
  | CallFinalizeWrite caller => err (outcome (finalizeWrite caller) s)
  | CallComplete caller st => err (outcome (complete caller st) s)
  | CallCompleteUnlocked caller last_holder =>
      err (outcome (completeUnlocked caller last_holder) s)
  | CallWait wakeups => err (outcome (wait wakeups) s)
  | CallDetach => err (outcome detach s)
  end.

(** The calls a run is made of: their size and offset arguments are
    [size_t] values. *)
Definition valid_call (c : Call) (s : FileSegment) : Prop :=
  match c with
  | CallReserve _ size _ => is_size_t size
  | CallWrite _ size offset_ _ => is_size_t size /\ is_size_t offset_
  | CallWriteInMemory _ size => is_size_t size
  | _ => True
  end.

(** Modelled from the spec: segments as the cache creates them, [EMPTY] or
    preloaded [DOWNLOADED]. *)
Inductive created : FileSegment -> Prop :=
| created_empty offset_ size_ :
    is_size_t offset_ -> is_size_t size_ ->
    created (create offset_ size_ EMPTY)
| created_downloaded offset_ size_ :
    is_size_t offset_ -> is_size_t size_ ->
    created (create offset_ size_ DOWNLOADED).

(** The states a segment can be in: created by the cache, then any
    sequence of calls that satisfy [ok]. *)
Inductive reachable_by (ok : Call -> FileSegment -> Prop) : FileSegment -> Prop :=
| reachable_created s : created s -> reachable_by ok s
| reachable_call s c :
    reachable_by ok s -> ok c s -> reachable_by ok (exec c s).

Definition reachable : FileSegment -> Prop := reachable_by valid_call.

(** A run: the calls made on a segment, first call first. *)
Fixpoint run (cs : list Call) (s : FileSegment) : FileSegment :=
  match cs with
  | [] => s
  | c :: cs' => run cs' (exec c s)
  end.

Fixpoint valid_run (cs : list Call) (s : FileSegment) : Prop :=
  match cs with
  | [] => True
  | c :: cs' => valid_call c s /\ valid_run cs' (exec c s)
  end.

(** ** Properties of a segment *)

(** P1: what is downloaded has been reserved (and both counters are
    [size_t] values). *)
Definition P1 (s : FileSegment) : Prop :=
  0 <= downloaded_size s /\ downloaded_size s <= reserved_size s
  /\ reserved_size s < size_t_modulus.

(** P2: no more is downloaded than the range holds. *)
Definition P2 (s : FileSegment) : Prop :=
  downloaded_size s <= Range.size (range s).

(** P3: the three ways to say that the segment is downloaded agree. *)
Definition P3 (s : FileSegment) : Prop :=
  (state s = DOWNLOADED <-> downloaded_size s = Range.size (range s))
  /\ (downloaded_size s = Range.size (range s) <-> isDownloaded s = true)
  /\ (state s = DOWNLOADED <-> isDownloaded s = true).

(** The part of P3 that every operation keeps: the flag mirrors the state,
    and a [DOWNLOADED] segment holds its whole range. *)
Definition P3_downloaded (s : FileSegment) : Prop :=
  (state s = DOWNLOADED <-> isDownloaded s = true)
  /\ (state s = DOWNLOADED -> downloaded_size s = Range.size (range s)).

(** The same in one equivalence: a segment is [DOWNLOADED] exactly when it
    holds its whole range and the flag is set. *)
Definition P3_conjunctive (s : FileSegment) : Prop :=
  state s = DOWNLOADED
  <-> (downloaded_size s = Range.size (range s) /\ isDownloaded s = true).

(** A downloader is only ever set on a [DOWNLOADING] segment. *)
Definition downloader_is_downloading (s : FileSegment) : Prop :=
  downloader_id s <> EmptyString -> download_state s = DOWNLOADING.

(** The buffer of [writeInMemory] holds a [size_t] number of bytes. *)
Definition in_memory_is_size (s : FileSegment) : Prop :=
  forall n, in_memory s = Some n -> 0 <= n.

(** The reservation never exceeds the range. *)
Definition reserved_within_range (s : FileSegment) : Prop :=
  reserved_size s <= Range.size (range s).

(** The invariant of all runs. *)
Definition Inv (s : FileSegment) : Prop :=
  P1 s /\ downloader_is_downloading s /\ P3_downloaded s
  /\ in_memory_is_size s /\ reserved_within_range s.

(** ** [formatRow] and [formatRowNoNewline] *)

(** The error codes the two functions throw. *)
Inductive ErrorCode : Type :=
| ILLEGAL_TYPE_OF_ARGUMENT
| NUMBER_OF_ARGUMENTS_DOESNT_MATCH
| UNKNOWN_FORMAT
| BAD_ARGUMENTS.

Inductive Thrown (A : Type) : Type :=
| Value (a : A)
| Throw (code : ErrorCode).

Arguments Value {A} a.
Arguments Throw {A} code.

#[local] Instance byte_eq_decision : EqDecision byte := Byte.byte_eq_dec.

(** Columns, as far as the two functions look into them: a constant column
    holds one value for all its rows, any other column one value per row. *)
Inductive Field : Type :=
| FieldString (value : string)
| FieldOther (value : Z).

Inductive IColumn : Type :=
| ColumnConst (value : Field) (rows : nat)
| ColumnFull (values : list Field).

Inductive DataType : Type :=
| DataTypeString
| DataTypeOther (name : string).

Record ColumnWithTypeAndName : Type := {
  column : IColumn;
  type : DataType;
  name : string
}.

(** [checkAndGetColumnConst<ColumnString>]: the value of a constant string
    column, nothing for any other column. *)
Definition checkAndGetColumnConst_String (c : IColumn) : option string :=
  match c with
  | ColumnConst (FieldString value) _ => Some value
  | _ => None
  end.

(** [materializeBlockInplace]: constant columns are expanded to full ones. *)
Definition materializeBlockInplace (block : list IColumn) : list IColumn :=
  (fun c => match c with
            | ColumnConst value rows => ColumnFull (replicate rows value)
            | ColumnFull values => ColumnFull values
            end) <$> block.

(** An output format either is an [IRowOutputFormat], which writes the
    bytes of one row of the block at a time, or it is not. *)
Inductive OutputFormat : Type :=
| RowOutputFormat (writeRow : list IColumn -> nat -> list byte)
| OtherOutputFormat.

(** What the functions use of [FormatFactory::instance()]: the names of the
    registered formats and the output format created for a name. *)
Record FormatFactory : Type := {
  getAllFormats : gset string;
  getOutputFormat : string -> OutputFormat
}.

(** [ColumnString]: the bytes of all rows, and for every row the offset one
    past its last byte. *)
Record ColumnString : Type := {
  chars : list byte;
  offsets : list nat
}.

(** [class FunctionFormatRow<no_newline>] *)
Record FunctionFormatRow : Type := {
  no_newline : bool;
  format_name : string
}.

(** [getName()] *)
Definition getName (no_newline_ : bool) : string :=
  if no_newline_ then "formatRowNoNewline" else "formatRow".

(** The constructor: the format has to be registered. *)
Definition FunctionFormatRow_new (factory : FormatFactory) (no_newline_ : bool)
    (format_name_ : string) : Thrown FunctionFormatRow :=
  if bool_decide (format_name_ ∈ getAllFormats factory)
  then Value {| no_newline := no_newline_; format_name := format_name_ |}
  else Throw UNKNOWN_FORMAT.

(** [// replace '\n' with '\0']: when something has been written
    ([buffer.position() != buffer.buffer().begin()]) and the last byte
    ([buffer.position()[-1]]) is a newline, that byte is overwritten in
    place.  The buffer is the vector of the column, seen as one window. *)
Definition replace_trailing_newline (buffer : list byte) : list byte :=
  match last buffer with
  | Some b =>
      if Byte.eqb b x0a then <[pred (length buffer) := x00]> buffer else buffer
  | None => buffer
  end.

(** The callback handed to [getOutputFormat]; the format calls it when it
    has written row [row].  [formatRowNoNewline] overwrites a trailing
    newline, [formatRow] appends a null byte; then the number of bytes
    written so far is stored as the offset of the row. *)
Definition row_callback (no_newline_ : bool) (row : nat) (col : ColumnString)
  : ColumnString :=
  let buffer :=
    if no_newline_ then replace_trailing_newline (chars col)
    else chars col ++ [x00] in
  {| chars := buffer; offsets := <[row := length buffer]> (offsets col) |}.

(** [out->write(arg_columns)] on a row output format: row by row, the
    format writes the bytes of the row and calls the callback. *)
Definition write_rows (no_newline_ : bool)
    (writeRow : list IColumn -> nat -> list byte) (block : list IColumn)
    (num_rows : nat) (col : ColumnString) : ColumnString :=
  foldl (fun col row =>
           row_callback no_newline_ row
             {| chars := chars col ++ writeRow block row;
                offsets := offsets col |})
    col (seq 0 num_rows).

(** [executeImpl]: the block of all arguments but the first is material-
    ized and holds [input_rows_count] rows; a format that is not a row
    output format is refused. *)
Definition executeImpl (factory : FormatFactory) (f : FunctionFormatRow)
    (arguments : list ColumnWithTypeAndName) (input_rows_count : nat)
  : Thrown ColumnString :=
  let col_str := {| chars := []; offsets := replicate input_rows_count 0%nat |} in
  let arg_columns := materializeBlockInplace (column <$> drop 1 arguments) in
  match getOutputFormat factory (format_name f) with
  | RowOutputFormat writeRow =>
      Value (write_rows (no_newline f) writeRow arg_columns input_rows_count col_str)
  | OtherOutputFormat => Throw BAD_ARGUMENTS
  end.

(** [FunctionToFunctionBaseAdaptor] *)
Record FunctionBase : Type := {
  function : FunctionFormatRow;
  argument_types : list DataType;
  return_type : DataType
}.

(** [FormatRowOverloadResolver<no_newline>::buildImpl] *)
Definition buildImpl (factory : FormatFactory) (no_newline_ : bool)
    (arguments : list ColumnWithTypeAndName) (return_type_ : DataType)
  : Thrown FunctionBase :=
  if (length arguments <? 2)%nat then Throw NUMBER_OF_ARGUMENTS_DOESNT_MATCH
  else
    match checkAndGetColumnConst_String <$> (column <$> arguments !! 0%nat) with
    | Some (Some name_col) =>
        match FunctionFormatRow_new factory no_newline_ name_col with
        | Value f =>
            Value {| function := f;
                     argument_types := type <$> arguments;
                     return_type := return_type_ |}
        | Throw code => Throw code
        end
    | _ => Throw ILLEGAL_TYPE_OF_ARGUMENT
    end.

(** The bytes a column stores for row [row], terminator included: what lies
    between the offset of the previous row and its own. *)
Definition stored_row (col : ColumnString) (row : nat) : list byte :=
  let first := match row with O => O | S p => default O (offsets col !! p) end in
  let past := default O (offsets col !! row) in
  take (past - first) (drop first (chars col)).

(** What the callback makes of the bytes of one row. *)
Definition terminated_row (no_newline_ : bool) (written : list byte) : list byte :=
  if no_newline_ then replace_trailing_newline written else written ++ [x00].

Definition ends_with_newline (written : list byte) : Prop :=
  last written = Some x0a.

(** The string of a row as the column presents it: the stored bytes
    without the last one, which is taken to be the terminator. *)
Definition row_string (col : ColumnString) (row : nat) : list byte :=
  take (pred (length (stored_row col row))) (stored_row col row).

(** The bytes of the first [k] rows, each as the callback leaves it. *)
Definition rows_bytes (no_newline_ : bool)
    (writeRow : list IColumn -> nat -> list byte) (block : list IColumn)
    (k : nat) : list byte :=
  concat ((fun row => terminated_row no_newline_ (writeRow block row)) <$> seq 0 k).

(** The format name the first argument carries, when it is a constant
    string column. *)
Definition first_argument_format (arguments : list ColumnWithTypeAndName)
  : option string :=
  match arguments with
  | first :: _ => checkAndGetColumnConst_String (column first)
  | [] => None
  end.

(** A factory that knows the single row format ["CSV"], which here writes
    a one-letter row and a newline, and a call with two rows. *)
Definition csv_factory : FormatFactory :=
  {| getAllFormats := {[ "CSV" ]};
     getOutputFormat := fun _ => RowOutputFormat (fun _ _ => [x61; x0a]) |}.

Definition csv_arguments : list ColumnWithTypeAndName :=
  [ {| column := ColumnConst (FieldString "CSV") 2;
       type := DataTypeString; name := "format" |};
    {| column := ColumnFull [FieldOther 1; FieldOther 2];
       type := DataTypeOther "UInt8"; name := "x" |} ].


(** Scenario: a single downloader fetches the range [[0, 99]] in two
    chunks and has not completed yet. *)
Definition full_download_before_complete : list Call :=
  [CallGetOrSetDownloader "A";
   CallReserve "A" 50 true; CallWrite "A" 50 0 true;
   CallReserve "A" 50 true; CallWrite "A" 50 50 true].

(** Scenario: a downloader tries to reserve and write 200 bytes on the
    range [[0, 99]]. *)
Definition oversized_download : list Call :=
  [CallGetOrSetDownloader "A";
   CallReserve "A" 200 true; CallWrite "A" 200 0 true].

(** Scenario: downloader A fetches half of [[0, 99]] and hands over; B
    resumes and fetches the rest. *)
Definition handoff_download : list Call :=
  [CallGetOrSetDownloader "A";
   CallReserve "A" 50 true; CallWrite "A" 50 0 true;
   CallResetDownloader "A";
   CallGetOrSetDownloader "B";
   CallReserve "B" 50 true; CallWrite "B" 50 50 true].

(** Scenario: on the range [[0, 999]] a downloader writes 300 bytes, is
    then denied 100 more, and drops its holder, the last one. *)
Definition reservation_failure_mid_download : list Call :=
  [CallGetOrSetDownloader "A";
   CallReserve "A" 300 true; CallWrite "A" 300 0 true;
   CallReserve "A" 100 false;
   CallCompleteUnlocked "A" true].

(** Scenario: the first reservation on the range [[0, 99]] is denied and
    the holder, the last one, is dropped. *)
Definition first_reserve_failure : list Call :=
  [CallGetOrSetDownloader "A";
   CallReserve "A" 100 false;
   CallCompleteUnlocked "A" true].

(** Scenario: the cache detaches the segment [[0, 99]] while A is its
    downloader with 40 bytes written. *)
Definition detach_during_download : list Call :=
  [CallGetOrSetDownloader "A";
   CallReserve "A" 40 true; CallWrite "A" 40 0 true;
   CallDetach].

(** Scenario: a downloader has reserved 50 bytes of the range [[0, 99]]
    and written 30 of them. *)
Definition partial_download : list Call :=
  [CallGetOrSetDownloader "A";
   CallReserve "A" 50 true; CallWrite "A" 30 0 true].

(** ** Further members of [Range] *)

From Stdlib Require Import Ascii DecimalString DecimalN.




(** ** Further row formats *)

(** A factory that knows the single row format ["Values"], which here
    writes a parenthesized digit and no newline. *)
Definition values_factory : FormatFactory :=
  {| getAllFormats := {[ "Values" ]};
     getOutputFormat := fun _ => RowOutputFormat (fun _ _ => [x28; x31; x29]) |}.

(** A factory whose format ["Native"] is registered but is not a row output
    format. *)
Definition native_factory : FormatFactory :=
  {| getAllFormats := {[ "Native" ]};
     getOutputFormat := fun _ => OtherOutputFormat |}.

(** A call of a function on the format ["Native"]. *)
Definition native_arguments : list ColumnWithTypeAndName :=
  [ {| column := ColumnConst (FieldString "Native") 2;
       type := DataTypeString; name := "format" |};
    {| column := ColumnFull [FieldOther 1; FieldOther 2];
       type := DataTypeOther "UInt8"; name := "x" |} ].

(** * Proofs *)

(** ** Machine integers *)

Lemma size_t_modulus_value : size_t_modulus = 18446744073709551616.
Proof. reflexivity. Qed.

Lemma wrap_small (z : Z) : is_size_t z -> wrap z = z.
Proof. unfold is_size_t, wrap. intros H. apply Z.mod_small. exact H. Qed.

Lemma wrap_is_size_t (z : Z) : is_size_t (wrap z).
Proof.
  unfold is_size_t, wrap. apply Z.mod_pos_bound.
  rewrite size_t_modulus_value. lia.
Qed.

Lemma wrap_add_l (a b : Z) : wrap (wrap a + b) = wrap (a + b).
Proof. unfold wrap. apply Zplus_mod_idemp_l. Qed.

Lemma wrap_sub_l (a b : Z) : wrap (wrap a - b) = wrap (a - b).
Proof. unfold wrap. apply Zminus_mod_idemp_l. Qed.

Lemma State_eqb_eq (a b : State) : State_eqb a b = true <-> a = b.
Proof. destruct a, b; simpl; split; intros H; try reflexivity; discriminate H. Qed.

(** ** Range *)

Lemma Range_size_mod (r : Range.t) :
  Range.size r = (Range.right r - Range.left r + 1) mod size_t_modulus.
Proof. unfold Range.size, size_add, size_sub. apply wrap_add_l. Qed.

(** C7 fails on the full range: [Range(0, 2^64 - 1)] has [left <= right],
    its size as an exact integer is [2^64], and [size()] wraps to [0]. *)
Lemma Range_size_full_range_wraps :
  is_size_t 0 /\ is_size_t (2 ^ 64 - 1) /\ 0 <= 2 ^ 64 - 1
  /\ Range.size (Range.Range 0 (2 ^ 64 - 1)) = 0
  /\ Range.size (Range.Range 0 (2 ^ 64 - 1)) <> (2 ^ 64 - 1) - 0 + 1.
Proof.
  unfold is_size_t. rewrite size_t_modulus_value.
  repeat split; try lia; vm_compute; congruence.
Qed.

(** C7, amended: for unsigned offsets [left <= right] that do not span the
    whole [size_t] domain ([right - left < 2^64 - 1]), [Range::size()] is
    exactly [right - left + 1]; the constructor stores the two offsets as
    they are given, and a range is equal to itself under [operator==]. *)
Theorem Range_size_exact (l r : Z) :
  is_size_t l -> is_size_t r -> l <= r -> r - l < size_t_modulus - 1 ->
  Range.size (Range.Range l r) = r - l + 1
  /\ Range.left (Range.Range l r) = l
  /\ Range.right (Range.Range l r) = r
  /\ Range.eqb (Range.Range l r) (Range.Range l r) = true.
Proof.
  intros Hl Hr Hle Hlt. split; [|split; [reflexivity|split; [reflexivity|]]].
  - rewrite Range_size_mod. simpl. apply Z.mod_small. lia.
  - unfold Range.eqb. simpl. rewrite !Z.eqb_refl. reflexivity.
Qed.

Lemma Range_size_exact_witness :
  Range.size (Range.Range 0 99) = 100
  /\ Range.left (Range.Range 0 99) = 0
  /\ Range.right (Range.Range 0 99) = 99
  /\ Range.eqb (Range.Range 0 99) (Range.Range 0 99) = true.
Proof.
  apply (Range_size_exact 0 99); unfold is_size_t;
    rewrite ?size_t_modulus_value; lia.
Defined.

(** C8: the constructor of [Range] validates nothing: any two [size_t]
    offsets, also with [left > right], give a range holding exactly them,
    and its [size()] is [(right - left + 1) mod 2^64]; so
    [Range(5, 3).size() = 2^64 - 1] and [Range(0, 2^64 - 1).size() = 0]. *)
Theorem Range_unvalidated_size_wraps (l r : Z) :
  is_size_t l -> is_size_t r ->
  Range.left (Range.Range l r) = l
  /\ Range.right (Range.Range l r) = r
  /\ Range.size (Range.Range l r) = (r - l + 1) mod 2 ^ 64
  /\ Range.size (Range.Range 5 3) = 2 ^ 64 - 1
  /\ Range.size (Range.Range 0 (2 ^ 64 - 1)) = 0.
Proof.
  intros _ _. repeat split.
  apply Range_size_mod.
Qed.

Lemma Range_unvalidated_size_wraps_witness :
  5 > 3
  /\ Range.left (Range.Range 5 3) = 5
  /\ Range.right (Range.Range 5 3) = 3
  /\ Range.size (Range.Range 5 3) = (3 - 5 + 1) mod 2 ^ 64
  /\ Range.size (Range.Range 5 3) = 2 ^ 64 - 1
  /\ Range.size (Range.Range 0 (2 ^ 64 - 1)) = 0.
Proof.
  split; [lia|].
  apply (Range_unvalidated_size_wraps 5 3); unfold is_size_t;
    rewrite size_t_modulus_value; lia.
Defined.

(** ** Running an operation *)

(** Unfolds a call down to the tests it makes on the segment. *)
Ltac unfold_op :=
  unfold exec, raised, after, outcome,
    getOrSetDownloader, resetDownloader, reserve, write, writeInMemory,
    finalizeWrite, complete, completeUnlocked, wait, detach,
    assertNotDetached, assertIsDownloader, throwIfDetached,
    throwIfDetachedUnlocked, setDownloaded, bind, get, modify, ret, raise,
    isDetached in *.

(** Splits on the next test whose scrutinee is not itself a test. *)
Ltac split_test :=
  match goal with
  | |- context [match ?x with _ => _ end] =>
      lazymatch x with
      | context [match _ with _ => _ end] => fail
      | _ => destruct x eqn:?
      end
  end.

Ltac run_op := unfold_op; cbn; repeat (split_test; cbn).

Lemma availableSize_exact (s : FileSegment) :
  P1 s -> availableSize s = reserved_size s - downloaded_size s.
Proof.
  intros (H0 & H1 & H2). unfold availableSize, size_sub.
  apply wrap_small. unfold is_size_t. lia.
Qed.

Lemma exec_range (c : Call) (s : FileSegment) :
  segment_range (exec c s) = segment_range s.
Proof. destruct c; run_op; reflexivity. Qed.

Lemma create_range_size (offset_ size_ : Z) (st : State) :
  is_size_t size_ -> Range.size (range (create offset_ size_ st)) = size_.
Proof.
  intros H. rewrite Range_size_mod. unfold create, range. cbn.
  unfold size_sub, size_add.
  change ((wrap (wrap (offset_ + size_) - 1) - offset_ + 1) mod size_t_modulus)
    with (wrap (wrap (wrap (offset_ + size_) - 1) - offset_ + 1)).
  rewrite wrap_sub_l.
  replace (wrap (offset_ + size_ - 1) - offset_ + 1)
    with (wrap (offset_ + size_ - 1) + (1 - offset_)) by lia.
  rewrite wrap_add_l.
  replace (offset_ + size_ - 1 + (1 - offset_)) with size_ by lia.
  apply wrap_small. exact H.
Qed.

Lemma created_reserved_within_range (s : FileSegment) :
  created s -> reserved_within_range s.
Proof.
  intros [o n Ho Hn | o n Ho Hn]; unfold reserved_within_range.
  - rewrite (create_range_size o n EMPTY Hn). cbn. unfold is_size_t in Hn. lia.
  - rewrite (create_range_size o n DOWNLOADED Hn). cbn. lia.
Qed.

Lemma created_Inv (s : FileSegment) : created s -> Inv s.
Proof.
  intros Hc. pose proof (created_reserved_within_range s Hc) as HR.
  destruct Hc as [o n Ho Hn | o n Ho Hn].
  - unfold Inv, P1, downloader_is_downloading, P3_downloaded, in_memory_is_size,
      state, isDownloaded.
    cbn. rewrite size_t_modulus_value.
    repeat split; try exact HR; try lia; try discriminate; congruence.
  - pose proof (create_range_size o n DOWNLOADED Hn) as Hsz.
    unfold Inv, P1, downloader_is_downloading, P3_downloaded, in_memory_is_size,
      state, isDownloaded.
    rewrite Hsz. cbn. unfold is_size_t in Hn.
    repeat split; try exact HR; try lia; try discriminate; congruence.
Qed.

Lemma isDownloaderImpl_true (caller : string) (s : FileSegment) :
  isDownloaderImpl caller s = true ->
  downloader_id s <> EmptyString /\ caller = downloader_id s.
Proof.
  unfold isDownloaderImpl. intros H.
  apply andb_prop in H as [H1 H2].
  apply negb_true_iff in H1. apply String.eqb_neq in H1.
  apply String.eqb_eq in H2. split; assumption.
Qed.

(** Turns the boolean tests collected by [run_op] into propositions. *)
Ltac reflect_tests :=
  repeat match goal with
  | H : isDownloaderImpl _ _ = true |- _ =>
      apply isDownloaderImpl_true in H; destruct H
  | H : (_ <? _) = true |- _ => apply Z.ltb_lt in H
  | H : (_ <? _) = false |- _ => apply Z.ltb_ge in H
  | H : (_ =? _) = true |- _ => apply Z.eqb_eq in H
  | H : (_ =? _) = false |- _ => apply Z.eqb_neq in H
  | H : State_eqb _ _ = true |- _ => apply State_eqb_eq in H
  | H : negb _ = true |- _ => apply negb_true_iff in H
  | H : negb _ = false |- _ => apply negb_false_iff in H
  | H : (_ && _)%bool = true |- _ => apply andb_prop in H; destruct H
  | H : (_ || _)%bool = true |- _ => apply orb_prop in H; destruct H
  end.

Ltac unfold_inv :=
  unfold Inv, P1, P2, P3_downloaded, downloader_is_downloading,
    in_memory_is_size, reserved_within_range, state, isDownloaded, range in *.

Lemma abandoned_state_not_downloaded (s : FileSegment) :
  abandoned_state s <> DOWNLOADED.
Proof.
  unfold abandoned_state.
  destruct (reservation_failed s), (downloaded_size s =? 0), (download_failed s);
    discriminate.
Qed.

Lemma Range_size_is_size_t (r : Range.t) : is_size_t (Range.size r).
Proof. rewrite Range_size_mod. apply wrap_is_size_t. Qed.

Lemma exec_Inv (c : Call) (s : FileSegment) :
  Inv s -> valid_call c s -> Inv (exec c s).
Proof.
  intros HI Hv.
  pose proof HI as (HP1 & Hd & (Hflag & Hfull) & Hbuf & HR).
  pose proof (availableSize_exact s HP1) as Hav.
  pose proof (abandoned_state_not_downloaded s) as Hab.
  pose proof (Range_size_is_size_t (segment_range s)) as Hrange.
  unfold is_size_t in Hrange.
  destruct c; run_op; try exact HI; reflect_tests; unfold_inv; cbn in *.
  all: try solve [intuition (try congruence; try lia)].
  - (* reserve, granted *)
    assert (Hw : size_add (reserved_size s) (0 `max` (size - availableSize s))
                 = reserved_size s + 0 `max` (size - availableSize s)).
    { apply wrap_small. unfold is_size_t. lia. }
    rewrite Hw. intuition (try congruence; try lia).
  - (* write *)
    destruct Hv as [Hsz _]. unfold is_size_t in Hsz.
    assert (Hw : size_add (downloaded_size s) size = downloaded_size s + size).
    { apply wrap_small. unfold is_size_t. lia. }
    rewrite Hw. intuition (try congruence; try lia).
  - (* writeInMemory *)
    unfold is_size_t in Hv.
    intuition (try congruence; try lia).
  - (* finalizeWrite *)
    assert (Hz : 0 <= z) by (apply Hbuf; assumption).
    assert (Hw : size_add (downloaded_size s) z = downloaded_size s + z).
    { apply wrap_small. unfold is_size_t. lia. }
    rewrite Hw. intuition (try congruence; try lia).
Qed.


Lemma reachable_by_Inv (ok : Call -> FileSegment -> Prop) (s : FileSegment) :
  (forall c s, ok c s -> valid_call c s) -> reachable_by ok s -> Inv s.
Proof.
  intros Hok H. induction H as [s Hc | s c _ IH Hc].
  - apply created_Inv. exact Hc.
  - apply exec_Inv; [exact IH | apply Hok; exact Hc].
Qed.

Lemma reachable_Inv (s : FileSegment) : reachable s -> Inv s.
Proof. apply reachable_by_Inv. intros c s' H. exact H. Qed.

Lemma reachable_run (cs : list Call) (s : FileSegment) :
  reachable s -> valid_run cs s -> reachable (run cs s).
Proof.
  revert s. induction cs as [|c cs IH]; intros s Hr Hv; cbn in *.
  - exact Hr.
  - destruct Hv as [Hc Hv]. apply IH; [|exact Hv].
    apply reachable_call; assumption.
Qed.

Lemma is_size_t_literal (z : Z) :
  (0 <=? z) && (z <? 18446744073709551616) = true -> is_size_t z.
Proof.
  intros H. apply andb_prop in H as [H1 H2].
  apply Z.leb_le in H1. apply Z.ltb_lt in H2.
  unfold is_size_t. rewrite size_t_modulus_value. lia.
Qed.

(** ** getOrSetDownloader *)

(** C1 fails on the sentinel: on a preloaded [DOWNLOADED] segment the call
    returns ["None"], while [downloader_id] is, and stays, the empty
    string. *)
Lemma getOrSetDownloader_sentinel_is_not_downloader_id :
  created (create 0 100 DOWNLOADED)
  /\ outcome (getOrSetDownloader "t1:1") (create 0 100 DOWNLOADED)
     = Returned "None"
  /\ downloader_id (after (getOrSetDownloader "t1:1") (create 0 100 DOWNLOADED))
     = EmptyString
  /\ "None" <> downloader_id
                 (after (getOrSetDownloader "t1:1") (create 0 100 DOWNLOADED)).
Proof.
  split; [|split; [reflexivity|split; [reflexivity|discriminate]]].
  apply created_downloaded; apply is_size_t_literal; reflexivity.
Qed.

(** C1, amended: on a detached segment [getOrSetDownloader] raises the
    detached-segment error and changes nothing.  On any other segment it
    returns without waiting: in [EMPTY] or [PARTIALLY_DOWNLOADED] the caller
    is installed as [downloader_id], the state becomes [DOWNLOADING] and
    the caller's own id is returned; in every other state the segment is
    unchanged and the existing downloader id is returned, except that the
    sentinel ["None"] is returned when there is no downloader and the state
    is terminal.  The returned string equals [downloader_id] after the call
    in all cases but the sentinel's, where [downloader_id] is empty. *)
Theorem getOrSetDownloader_result (caller : string) (s : FileSegment) :
  let s' := after (getOrSetDownloader caller) s in
  if is_detached s
  then outcome (getOrSetDownloader caller) s = Raised DetachedSegment /\ s' = s
  else exists id,
    outcome (getOrSetDownloader caller) s = Returned id
    /\ match state s with
       | EMPTY | PARTIALLY_DOWNLOADED =>
           id = caller /\ downloader_id s' = caller /\ state s' = DOWNLOADING
       | _ =>
           s' = s
           /\ id = (if String.eqb (downloader_id s) EmptyString && hasFinalizedState s
                    then "None" else downloader_id s)
       end
    /\ (id = downloader_id s'
        \/ (id = "None" /\ downloader_id s' = EmptyString /\ hasFinalizedState s' = true)).
Proof.
  unfold state. run_op; try (split; reflexivity).
  all: eexists; split; [reflexivity|]; split;
    try (split; reflexivity); try (repeat split; reflexivity).
  all: try (left; reflexivity).
  all: reflect_tests; right; repeat split; try assumption.
  all: match goal with H : String.eqb _ _ = true |- _ => apply String.eqb_eq in H; exact H end.
Qed.

(** ** The scenarios are runs of the segment *)

Ltac size_t_literals :=
  repeat match goal with
  | |- is_size_t _ => apply is_size_t_literal; reflexivity
  | |- _ /\ _ => split
  | |- True => exact I
  end.

Lemma full_download_before_complete_valid :
  valid_run full_download_before_complete (create 0 100 EMPTY).
Proof.
  cbn. size_t_literals.
Qed.



Lemma create_0_100_EMPTY_reachable : reachable (create 0 100 EMPTY).
Proof.
  apply reachable_created, created_empty; apply is_size_t_literal; reflexivity.
Qed.

(** ** P3 *)

Lemma P3_downloaded_conjunctive (s : FileSegment) :
  P3_downloaded s -> P3_conjunctive s.
Proof.
  unfold P3_downloaded, P3_conjunctive. intros [Hflag Hfull]. split.
  - intros H. split; [apply Hfull | apply Hflag]; exact H.
  - intros [_ H]. apply Hflag. exact H.
Qed.

(** C2 fails between the last [write] and [complete]: after a downloader
    has written the whole range [[0, 99]] the segment holds all 100 bytes,
    but its state is still [DOWNLOADING] and the flag is not set. *)
Lemma P3_fails_before_complete :
  reachable (run full_download_before_complete (create 0 100 EMPTY))
  /\ downloaded_size (run full_download_before_complete (create 0 100 EMPTY))
     = Range.size (range (run full_download_before_complete (create 0 100 EMPTY)))
  /\ state (run full_download_before_complete (create 0 100 EMPTY)) = DOWNLOADING
  /\ isDownloaded (run full_download_before_complete (create 0 100 EMPTY)) = false
  /\ ~ P3 (run full_download_before_complete (create 0 100 EMPTY)).
Proof.
  split; [|split; [reflexivity|split; [reflexivity|split; [reflexivity|]]]].
  - apply reachable_run.
    + exact create_0_100_EMPTY_reachable.
    + exact full_download_before_complete_valid.
  - intros (H & _). destruct H as [_ H].
    assert (Hs : state (run full_download_before_complete (create 0 100 EMPTY))
                 = DOWNLOADED) by (apply H; reflexivity).
    discriminate Hs.
Qed.

(** C2, amended: in every reachable state the flag [is_downloaded] is set
    exactly when the state is [DOWNLOADED], and a [DOWNLOADED] segment has
    [downloaded_size == range.size()]; put together, the state is
    [DOWNLOADED] exactly when [downloaded_size == range.size()] and the
    flag is set.  Every operation ([getOrSetDownloader], [reserve],
    [write], [writeInMemory], [finalizeWrite], [complete],
    [resetDownloader], [wait], [detach]) preserves this.  The step from
    [downloaded_size == range.size()] alone to [DOWNLOADED] is not claimed:
    it fails from the last [write] until [complete(DOWNLOADED)]. *)
Theorem downloaded_state_mirrored (s : FileSegment) (c : Call) :
  reachable s -> valid_call c s ->
  (P3_downloaded s /\ P3_conjunctive s)
  /\ (P3_downloaded (exec c s) /\ P3_conjunctive (exec c s)).
Proof.
  intros Hr Hv. pose proof (reachable_Inv s Hr) as HI.
  pose proof (exec_Inv c s HI Hv) as HI'.
  destruct HI as (_ & _ & HP & _). destruct HI' as (_ & _ & HP' & _).
  split; (split; [assumption | apply P3_downloaded_conjunctive; assumption]).
Qed.

Lemma downloaded_state_mirrored_witness :
  (P3_downloaded (run full_download_before_complete (create 0 100 EMPTY))
   /\ P3_conjunctive (run full_download_before_complete (create 0 100 EMPTY)))
  /\ (P3_downloaded
        (exec (CallComplete "A" DOWNLOADED)
           (run full_download_before_complete (create 0 100 EMPTY)))
      /\ P3_conjunctive
           (exec (CallComplete "A" DOWNLOADED)
              (run full_download_before_complete (create 0 100 EMPTY)))).
Proof.
  apply (downloaded_state_mirrored
           (run full_download_before_complete (create 0 100 EMPTY))
           (CallComplete "A" DOWNLOADED)).
  - apply reachable_run.
    + exact create_0_100_EMPTY_reachable.
    + exact full_download_before_complete_valid.
  - exact I.
Defined.

(** ** P1 and P2 *)



Example partial_download_then_write :
  let s := run partial_download (create 0 100 EMPTY) in
  downloaded_size s = 30 /\ reserved_size s = 50 /\ availableSize s = 20
  /\ downloaded_size (exec (CallWrite "A" 20 30 true) s) = 50
  /\ raised (CallWrite "A" 21 30 true) s = Some ReservationFailed.
Proof. repeat split; reflexivity. Qed.

Example reserve_past_the_range_is_rejected :
  let s := exec (CallGetOrSetDownloader "A") (create 0 100 EMPTY) in
  raised (CallReserve "A" 200 true) s = Some IllegalState
  /\ run oversized_download (create 0 100 EMPTY) = s.
Proof. split; reflexivity. Qed.

(** ** Detached segments *)




(** ** wait *)

Lemma wait_loop_observed (entry observed : FileSegment) (wakeups : list FileSegment) :
  wait_loop entry observed wakeups = observed
  \/ wait_loop entry observed wakeups ∈ wakeups.
Proof.
  revert observed. induction wakeups as [|w ws IH]; intros observed; cbn.
  - left. reflexivity.
  - right. destruct (wait_released entry w).
    + apply list_elem_of_here.
    + destruct (IH w) as [H | H].
      * rewrite H. apply list_elem_of_here.
      * apply list_elem_of_further. exact H.
Qed.

(** C5 fails on a detached segment: [wait] is gated like the other
    operations, so a call made on a segment the cache has detached raises
    the detached-segment error instead of returning a state. *)
Lemma wait_raises_on_detached_segment :
  reachable (run detach_during_download (create 0 100 EMPTY))
  /\ is_detached (run detach_during_download (create 0 100 EMPTY)) = true
  /\ outcome (wait []) (run detach_during_download (create 0 100 EMPTY))
     = Raised DetachedSegment.
Proof.
  split; [|split; reflexivity].
  apply reachable_run.
  - exact create_0_100_EMPTY_reachable.
  - cbn. size_t_literals.
Qed.

(** C5, amended: [wait] raises only on a segment that is detached when the
    call is made, and then it raises the detached-segment error.  On any
    other segment it never raises, whatever happens while it is blocked:
    it returns a state, and that state is the one it observed, on entry or
    at one of its wake-ups.  When the state is not [DOWNLOADING], or the
    whole range is downloaded, it does not block: it returns the current
    state at once, whatever the wake-ups would be.  When the bounded wait
    times out with nothing observed in between, the current state is
    returned.  [wait] never changes the segment and never raises a
    [Timeout] error. *)
Theorem wait_returns_observed_state (wakeups : list FileSegment) (s : FileSegment) :
  (if is_detached s
   then outcome (wait wakeups) s = Raised DetachedSegment
   else (exists st, outcome (wait wakeups) s = Returned st
                    /\ (st = state s \/ exists w, w ∈ wakeups /\ st = state w))
        /\ (state s <> DOWNLOADING \/ Range.size (range s) <= downloaded_size s ->
            outcome (wait wakeups) s = Returned (state s))
        /\ outcome (wait []) s = Returned (state s))
  /\ after (wait wakeups) s = s
  /\ outcome (wait wakeups) s <> Raised Timeout.
Proof.
  split; [|split].
  - unfold state. run_op; try reflexivity.
    + split; [|split].
      * eexists. split; [reflexivity|].
        destruct (wait_loop_observed s s wakeups) as [H | H].
        -- left. rewrite H. reflexivity.
        -- right. eexists. split; [exact H | reflexivity].
      * match goal with H : wait_blocks s = true |- _ =>
          unfold wait_blocks, range in H; apply andb_prop in H as [Hs Hd] end.
        apply State_eqb_eq in Hs. apply Z.ltb_lt in Hd. unfold range.
        intros [Hn | Hn]; [contradiction | lia].
      * reflexivity.
    + split; [|split].
      * eexists. split; [reflexivity|]. left. reflexivity.
      * intros _. reflexivity.
      * reflexivity.
  - run_op; reflexivity.
  - run_op; discriminate.
Qed.

(** ** Monotonic progress *)



Example handoff_download_result :
  getDownloadedSize (run handoff_download (create 0 100 EMPTY)) = 100
  /\ getDownloader (run handoff_download (create 0 100 EMPTY)) = "B".
Proof. split; reflexivity. Qed.

(** ** The end-to-end scenarios *)

Example single_downloader_full_download :
  let s := run (full_download_before_complete ++ [CallComplete "A" DOWNLOADED])
               (create 0 100 EMPTY) in
  state s = DOWNLOADED /\ downloaded_size s = 100 /\ reserved_size s = 100
  /\ isDownloaded s = true /\ getDownloader s = EmptyString.
Proof. repeat split; reflexivity. Qed.

Example contended_wait :
  let downloading := run full_download_before_complete (create 0 100 EMPTY) in
  outcome (wait []) downloading = Returned DOWNLOADING
  /\ outcome (wait []) (exec (CallComplete "A" DOWNLOADED) downloading)
     = Returned DOWNLOADED.
Proof. split; reflexivity. Qed.

Example reservation_failure_mid_download_result :
  let s := run reservation_failure_mid_download (create 0 1000 EMPTY) in
  state s = PARTIALLY_DOWNLOADED_NO_CONTINUATION /\ downloaded_size s = 300.
Proof. split; reflexivity. Qed.

Example first_reserve_failure_result :
  let s := run first_reserve_failure (create 0 100 EMPTY) in
  state s = SKIP_CACHE /\ downloaded_size s = 0 /\ reserved_size s = 0.
Proof. repeat split; reflexivity. Qed.

Example detach_during_download_result :
  let downloading := run partial_download (create 0 100 EMPTY) in
  let detached := exec CallDetach downloading in
  raised (CallWrite "A" 10 30 true) detached = Some DetachedSegment
  /\ outcome (wait [detached]) downloading = Returned (state downloading)
  /\ raised (CallReserve "A" 10 true) detached = Some DetachedSegment
  /\ raised (CallWait []) detached = Some DetachedSegment
  /\ exec (CallWrite "A" 10 30 true) detached = detached.
Proof. repeat split; reflexivity. Qed.

(** ** formatRow *)

Local Open Scope nat_scope.

Lemma replace_trailing_newline_length (buffer : list byte) :
  length (replace_trailing_newline buffer) = length buffer.
Proof.
  unfold replace_trailing_newline.
  destruct (last buffer) as [b|]; [|reflexivity].
  destruct (Byte.eqb b x0a); [|reflexivity].
  apply length_insert.
Qed.

Lemma replace_trailing_newline_snoc (l : list byte) :
  replace_trailing_newline (l ++ [x0a]) = l ++ [x00].
Proof.
  unfold replace_trailing_newline. rewrite last_snoc. cbn [Byte.eqb].
  replace (Byte.eqb x0a x0a) with true by reflexivity.
  rewrite length_app. cbn [length].
  replace (pred (length l + 1)) with (length l + 0) by lia.
  rewrite insert_app_r. reflexivity.
Qed.

Lemma replace_trailing_newline_id (buffer : list byte) :
  last buffer <> Some x0a -> replace_trailing_newline buffer = buffer.
Proof.
  unfold replace_trailing_newline. intros H.
  destruct (last buffer) as [b|]; [|reflexivity].
  destruct (Byte.eqb b x0a) eqn:E; [|reflexivity].
  apply byte_dec_bl in E. subst b. contradiction H. reflexivity.
Qed.

Lemma replace_trailing_newline_last (buffer : list byte) :
  last (replace_trailing_newline buffer) <> Some x0a.
Proof.
  destruct (decide (last buffer = Some x0a)) as [H | H].
  - apply last_Some in H as [l ->].
    rewrite replace_trailing_newline_snoc, last_snoc. discriminate.
  - rewrite replace_trailing_newline_id; assumption.
Qed.

Lemma replace_trailing_newline_app (buffer written : list byte) :
  last buffer <> Some x0a ->
  replace_trailing_newline (buffer ++ written)
  = buffer ++ replace_trailing_newline written.
Proof.
  intros Hb.
  destruct (decide (last written = Some x0a)) as [H | H].
  - apply last_Some in H as [l ->].
    rewrite app_assoc, !replace_trailing_newline_snoc, app_assoc. reflexivity.
  - rewrite (replace_trailing_newline_id written H).
    apply replace_trailing_newline_id.
    rewrite last_app. destruct (last written) as [b|]; [exact H | exact Hb].
Qed.

Lemma row_callback_chars (nn : bool) (row : nat) (buffer written : list byte)
    (offs : list nat) :
  (nn = true -> last buffer <> Some x0a) ->
  chars (row_callback nn row {| chars := buffer ++ written; offsets := offs |})
  = buffer ++ terminated_row nn written.
Proof.
  intros H. unfold row_callback, terminated_row. cbn. destruct nn.
  - apply replace_trailing_newline_app. apply H. reflexivity.
  - rewrite app_assoc. reflexivity.
Qed.

Lemma terminated_row_last (written : list byte) :
  last (terminated_row true written) <> Some x0a.
Proof. apply replace_trailing_newline_last. Qed.

Lemma write_rows_S (nn : bool) (w : list IColumn -> nat -> list byte)
    (block : list IColumn) (k : nat) (col : ColumnString) :
  write_rows nn w block (S k) col
  = row_callback nn k
      {| chars := chars (write_rows nn w block k col) ++ w block k;
         offsets := offsets (write_rows nn w block k col) |}.
Proof.
  unfold write_rows. rewrite seq_S, foldl_snoc. reflexivity.
Qed.

Lemma rows_bytes_S (nn : bool) (w : list IColumn -> nat -> list byte)
    (block : list IColumn) (k : nat) :
  rows_bytes nn w block (S k)
  = rows_bytes nn w block k ++ terminated_row nn (w block k).
Proof.
  unfold rows_bytes. rewrite seq_S, fmap_app, concat_app. cbn.
  rewrite app_nil_r. reflexivity.
Qed.

Lemma rows_bytes_last (w : list IColumn -> nat -> list byte)
    (block : list IColumn) (k : nat) :
  last (rows_bytes true w block k) <> Some x0a.
Proof.
  induction k as [|k IH].
  - cbn. discriminate.
  - rewrite rows_bytes_S, last_app.
    pose proof (terminated_row_last (w block k)) as H.
    destruct (last (terminated_row true (w block k))); assumption.
Qed.

(** The column after [k] rows: the bytes of the rows one after the other,
    and for each of them the offset past its last byte. *)
Lemma write_rows_spec (nn : bool) (w : list IColumn -> nat -> list byte)
    (block : list IColumn) (n k : nat) :
  k <= n ->
  let col := write_rows nn w block k
               {| chars := []; offsets := replicate n 0 |} in
  chars col = rows_bytes nn w block k
  /\ length (offsets col) = n
  /\ forall row, row < k ->
       offsets col !! row = Some (length (rows_bytes nn w block (S row))).
Proof.
  induction k as [|k IH]; intros Hk.
  - cbn. split; [reflexivity|]. split; [apply length_replicate|]. lia.
  - destruct IH as (Hc & Hl & Ho); [lia|].
    cbn zeta. rewrite write_rows_S.
    set (prev := write_rows nn w block k {| chars := []; offsets := replicate n 0 |}) in *.
    assert (Hchars : chars (row_callback nn k
                {| chars := chars prev ++ w block k; offsets := offsets prev |})
             = rows_bytes nn w block (S k)).
    { rewrite row_callback_chars, rows_bytes_S, Hc; [reflexivity|].
      intros ->. rewrite Hc. apply rows_bytes_last. }
    split; [exact Hchars|]. split.
    + unfold row_callback. cbn. rewrite length_insert. exact Hl.
    + intros row Hrow.
      assert (Hoffs : offsets (row_callback nn k
                  {| chars := chars prev ++ w block k; offsets := offsets prev |})
               = <[k := length (rows_bytes nn w block (S k))]> (offsets prev)).
      { rewrite <- Hchars. reflexivity. }
      rewrite Hoffs.
      destruct (decide (row = k)) as [-> | Hne].
      * apply list_lookup_insert_eq. lia.
      * rewrite list_lookup_insert_ne by congruence. apply Ho. lia.
Qed.

Lemma stored_row_write_rows (nn : bool) (w : list IColumn -> nat -> list byte)
    (block : list IColumn) (n row : nat) :
  row < n ->
  stored_row (write_rows nn w block n {| chars := []; offsets := replicate n 0 |}) row
  = terminated_row nn (w block row).
Proof.
  intros Hrow.
  destruct (write_rows_spec nn w block n n (le_n n)) as (Hc & _ & Ho).
  unfold stored_row. rewrite Hc, (Ho row Hrow).
  assert (Hfirst : match row with
                   | 0 => 0
                   | S p => default 0 (offsets (write_rows nn w block n
                              {| chars := []; offsets := replicate n 0 |}) !! p)
                   end = length (rows_bytes nn w block row)).
  { destruct row as [|p]; [reflexivity|]. rewrite (Ho p) by lia. reflexivity. }
  rewrite Hfirst. cbn [default].
  assert (Hsplit : exists rest,
             rows_bytes nn w block n = rows_bytes nn w block (S row) ++ rest).
  { clear -Hrow. induction n as [|n IH]; [lia|].
    destruct (decide (row = n)) as [-> | Hne].
    - exists []. rewrite app_nil_r. reflexivity.
    - destruct IH as [rest Hrest]; [lia|].
      exists (rest ++ terminated_row nn (w block n)).
      rewrite (rows_bytes_S nn w block n), Hrest, app_assoc. reflexivity. }
  destruct Hsplit as [rest Hrest]. rewrite Hrest, rows_bytes_S.
  rewrite <- app_assoc, drop_app_length.
  apply take_app_length'. unfold id. rewrite length_app. lia.
Qed.

(** C9: [formatRowNoNewline] does not shorten what the row output format
    wrote for a row.  When the format ends the row with a newline byte,
    that one byte is overwritten in place by the null byte, so the stored
    row, terminator included, is as long as the row [formatRow] yields
    (whose stored bytes are the written ones followed by a null byte of its
    own).  When the row does not end with a newline, the stored row is just
    the written bytes: no null byte is written for it. *)
Theorem formatRowNoNewline_overwrites_newline
    (factory : FormatFactory) (format_name_ : string)
    (writeRow : list IColumn -> nat -> list byte)
    (arguments : list ColumnWithTypeAndName) (input_rows_count row : nat) :
  getOutputFormat factory format_name_ = RowOutputFormat writeRow ->
  row < input_rows_count ->
  let written :=
    writeRow (materializeBlockInplace (column <$> drop 1 arguments)) row in
  exists col_no_newline col_newline,
    executeImpl factory {| no_newline := true; format_name := format_name_ |}
      arguments input_rows_count = Value col_no_newline
    /\ executeImpl factory {| no_newline := false; format_name := format_name_ |}
         arguments input_rows_count = Value col_newline
    /\ stored_row col_newline row = written ++ [x00]
    /\ row_string col_newline row = written
    /\ length (stored_row col_no_newline row) = length written
    /\ (ends_with_newline written ->
        exists line,
          written = line ++ [x0a]
          /\ stored_row col_no_newline row = line ++ [x00]
          /\ length (stored_row col_no_newline row)
             = length (row_string col_newline row))
    /\ (~ ends_with_newline written -> stored_row col_no_newline row = written).
Proof.
  intros Hfmt Hrow written.
  unfold executeImpl. cbn [format_name no_newline]. rewrite Hfmt.
  eexists. eexists. split; [reflexivity|]. split; [reflexivity|].
  rewrite !stored_row_write_rows by exact Hrow.
  fold written. unfold terminated_row.
  assert (Hstr : row_string
            (write_rows false writeRow
               (materializeBlockInplace (column <$> drop 1 arguments))
               input_rows_count
               {| chars := []; offsets := replicate input_rows_count 0 |}) row
          = written).
  { unfold row_string. rewrite stored_row_write_rows by exact Hrow.
    fold written. unfold terminated_row.
    apply take_app_length'. rewrite length_app. cbn. lia. }
  split; [reflexivity|]. split; [exact Hstr|].
  split; [apply replace_trailing_newline_length|]. split.
  - intros Hnl. apply last_Some in Hnl as [line Hline].
    exists line. split; [exact Hline|].
    rewrite Hstr, Hline, replace_trailing_newline_snoc.
    split; [reflexivity|]. rewrite !length_app. reflexivity.
  - intros Hnl. apply replace_trailing_newline_id. exact Hnl.
Qed.

Lemma formatRowNoNewline_overwrites_newline_witness :
  exists col_no_newline col_newline,
    executeImpl csv_factory {| no_newline := true; format_name := "CSV" |}
      csv_arguments 2 = Value col_no_newline
    /\ executeImpl csv_factory {| no_newline := false; format_name := "CSV" |}
         csv_arguments 2 = Value col_newline
    /\ stored_row col_newline 1 = [x61; x0a] ++ [x00]
    /\ row_string col_newline 1 = [x61; x0a]
    /\ length (stored_row col_no_newline 1) = length [x61; x0a]
    /\ (ends_with_newline [x61; x0a] ->
        exists line,
          [x61; x0a] = line ++ [x0a]
          /\ stored_row col_no_newline 1 = line ++ [x00]
          /\ length (stored_row col_no_newline 1)
             = length (row_string col_newline 1))
    /\ (~ ends_with_newline [x61; x0a] -> stored_row col_no_newline 1 = [x61; x0a]).
Proof.
  apply (formatRowNoNewline_overwrites_newline csv_factory "CSV"
           (fun _ _ => [x61; x0a]) csv_arguments 2 1).
  - reflexivity.
  - lia.
Defined.

Example formatRow_csv_columns :
  executeImpl csv_factory {| no_newline := false; format_name := "CSV" |}
    csv_arguments 2
  = Value {| chars := [x61; x0a; x00; x61; x0a; x00]; offsets := [3; 6] |}
  /\ executeImpl csv_factory {| no_newline := true; format_name := "CSV" |}
       csv_arguments 2
     = Value {| chars := [x61; x00; x61; x00]; offsets := [2; 4] |}.
Proof. split; reflexivity. Qed.

(** C10: building [formatRow] or [formatRowNoNewline] fails whenever fewer
    than two arguments are supplied
    ([NUMBER_OF_ARGUMENTS_DOESNT_MATCH]), or the first argument is not a
    constant string ([ILLEGAL_TYPE_OF_ARGUMENT]), or the named format is
    not registered in the factory ([UNKNOWN_FORMAT]), and succeeds
    otherwise; executing either function with a format that is not a row
    output format fails with [BAD_ARGUMENTS] instead of returning a
    column. *)
Theorem formatRow_build_and_execute_errors
    (factory : FormatFactory) (no_newline_ : bool)
    (arguments : list ColumnWithTypeAndName) (return_type_ : DataType)
    (f : FunctionFormatRow) (input_rows_count : nat) :
  (length arguments < 2 ->
   buildImpl factory no_newline_ arguments return_type_
   = Throw NUMBER_OF_ARGUMENTS_DOESNT_MATCH)
  /\ (2 <= length arguments -> first_argument_format arguments = None ->
      buildImpl factory no_newline_ arguments return_type_
      = Throw ILLEGAL_TYPE_OF_ARGUMENT)
  /\ (forall name_col,
        2 <= length arguments ->
        first_argument_format arguments = Some name_col ->
        name_col ∉ getAllFormats factory ->
        buildImpl factory no_newline_ arguments return_type_
        = Throw UNKNOWN_FORMAT)
  /\ ((length arguments < 2
       \/ first_argument_format arguments = None
       \/ exists name_col, first_argument_format arguments = Some name_col
                           /\ name_col ∉ getAllFormats factory)
      <-> exists code,
            buildImpl factory no_newline_ arguments return_type_ = Throw code)
  /\ (getOutputFormat factory (format_name f) = OtherOutputFormat ->
      executeImpl factory f arguments input_rows_count = Throw BAD_ARGUMENTS).
Proof.
  assert (Hshort : length arguments < 2 ->
                   buildImpl factory no_newline_ arguments return_type_
                   = Throw NUMBER_OF_ARGUMENTS_DOESNT_MATCH).
  { intros H. unfold buildImpl.
    destruct (Nat.ltb_spec (length arguments) 2); [reflexivity | lia]. }
  assert (Hlong : 2 <= length arguments ->
            buildImpl factory no_newline_ arguments return_type_
            = match first_argument_format arguments with
              | Some name_col =>
                  if bool_decide (name_col ∈ getAllFormats factory)
                  then Value {| function := {| no_newline := no_newline_;
                                               format_name := name_col |};
                                argument_types := type <$> arguments;
                                return_type := return_type_ |}
                  else Throw UNKNOWN_FORMAT
              | None => Throw ILLEGAL_TYPE_OF_ARGUMENT
              end).
  { intros H. unfold buildImpl, FunctionFormatRow_new.
    destruct (Nat.ltb_spec (length arguments) 2); [lia|].
    destruct arguments as [|first rest]; [cbn in H; lia|]. cbn.
    destruct (checkAndGetColumnConst_String (column first)); [|reflexivity].
    destruct (bool_decide _); reflexivity. }
  split; [exact Hshort|]. split; [|split; [|split]].
  - intros H Hnone. rewrite (Hlong H), Hnone. reflexivity.
  - intros name_col H Hsome Hnot. rewrite (Hlong H), Hsome.
    rewrite bool_decide_eq_false_2 by exact Hnot. reflexivity.
  - split.
    + intros [H | H].
      * eexists. apply Hshort. exact H.
      * destruct (Nat.lt_ge_cases (length arguments) 2) as [Hlt | Hge].
        { eexists. apply Hshort. exact Hlt. }
        rewrite (Hlong Hge).
        destruct H as [-> | (name_col & -> & Hnot)].
        { eexists. reflexivity. }
        rewrite bool_decide_eq_false_2 by exact Hnot. eexists. reflexivity.
    + intros [code Hcode].
      destruct (Nat.lt_ge_cases (length arguments) 2) as [Hlt | Hge];
        [left; exact Hlt | right].
      rewrite (Hlong Hge) in Hcode.
      destruct (first_argument_format arguments) as [name_col|];
        [right | left; reflexivity].
      exists name_col. split; [reflexivity|].
      destruct (bool_decide (name_col ∈ getAllFormats factory)) eqn:E;
        [discriminate Hcode|].
      apply bool_decide_eq_false in E. exact E.
  - intros H. unfold executeImpl. rewrite H. reflexivity.
Qed.

Example buildImpl_csv :
  buildImpl csv_factory true csv_arguments DataTypeString
  = Value {| function := {| no_newline := true; format_name := "CSV" |};
             argument_types := [DataTypeString; DataTypeOther "UInt8"];
             return_type := DataTypeString |}
  /\ buildImpl csv_factory true (take 1 csv_arguments) DataTypeString
     = Throw NUMBER_OF_ARGUMENTS_DOESNT_MATCH
  /\ buildImpl csv_factory false (drop 1 csv_arguments ++ csv_arguments)
       DataTypeString
     = Throw ILLEGAL_TYPE_OF_ARGUMENT.
Proof. repeat split; vm_compute; reflexivity. Qed.

(** * Further properties *)

Local Open Scope Z_scope.

(** ** Range *)

(** X1: [operator==] on ranges decides equality: it answers [true] exactly
    when both endpoints match, that is when the two ranges are the same. *)
Theorem Range_eqb_decides_equality (a b : Range.t) :
  (Range.eqb a b = true <-> a = b)
  /\ (Range.eqb a b = true
      <-> Range.left a = Range.left b /\ Range.right a = Range.right b)
  /\ Range.eqb a b = Range.eqb b a.
Proof.
  destruct a as [la ra], b as [lb rb]. unfold Range.eqb. cbn.
  split; [|split].
  - split.
    + intros H. apply andb_prop in H as [H1 H2].
      apply Z.eqb_eq in H1, H2. subst. reflexivity.
    + intros H. inversion H. subst. rewrite !Z.eqb_refl. reflexivity.
  - split.
    + intros H. apply andb_prop in H as [H1 H2].
      apply Z.eqb_eq in H1, H2. split; assumption.
    + intros [-> ->]. rewrite !Z.eqb_refl. reflexivity.
  - rewrite (Z.eqb_sym la lb), (Z.eqb_sym ra rb). reflexivity.
Qed.

Lemma wrap_shift_up (z : Z) :
  - size_t_modulus <= z < 0 -> wrap z = z + size_t_modulus.
Proof.
  intros H. unfold wrap.
  rewrite <- (Z_mod_plus_full z 1 size_t_modulus).
  apply Z.mod_small. lia.
Qed.

Lemma wrap_modulus : wrap size_t_modulus = 0.
Proof. reflexivity. Qed.

(** X2: [Range::size()] is always a [size_t]; it is [0] exactly for the
    ranges with [left = right + 1] modulo [2^64] (so [Range(5, 4)] and
    [Range(0, 2^64 - 1)] both have size [0]), and for a reversed range with
    [right + 1 < left] it wraps to [2^64 - (left - right - 1)]. *)
Theorem Range_size_degenerate (l r : Z) :
  is_size_t l -> is_size_t r ->
  is_size_t (Range.size (Range.Range l r))
  /\ (Range.size (Range.Range l r) = 0 <-> l = wrap (r + 1))
  /\ (r + 1 < l ->
      Range.size (Range.Range l r) = size_t_modulus - (l - r - 1)).
Proof.
  intros Hl Hr. rewrite Range_size_mod. cbn [Range.left Range.right].
  fold (wrap (r - l + 1)). unfold is_size_t in Hl, Hr.
  split; [apply wrap_is_size_t|].
  destruct (Z_lt_le_dec (r - l + 1) 0) as [Hneg | Hpos].
  - rewrite (wrap_shift_up (r - l + 1)) by lia.
    rewrite (wrap_small (r + 1)) by (unfold is_size_t; lia).
    split; [split; lia | intros _; lia].
  - destruct (Z.eq_dec (r - l + 1) size_t_modulus) as [Hfull | Hnot].
    + rewrite Hfull, wrap_modulus.
      replace (r + 1) with size_t_modulus by lia. rewrite wrap_modulus.
      split; [split; lia | lia].
    + rewrite (wrap_small (r - l + 1)) by (unfold is_size_t; lia).
      destruct (Z.eq_dec (r + 1) size_t_modulus) as [Hr1 | Hr1].
      * rewrite Hr1, wrap_modulus. split; [split; lia | lia].
      * rewrite (wrap_small (r + 1)) by (unfold is_size_t; lia).
        split; [split; lia | lia].
Qed.

Lemma Range_size_degenerate_witness :
  is_size_t (Range.size (Range.Range 5 4))
  /\ (Range.size (Range.Range 5 4) = 0 <-> 5 = wrap (4 + 1))
  /\ (4 + 1 < 5 -> Range.size (Range.Range 5 4) = size_t_modulus - (5 - 4 - 1)).
Proof.
  apply (Range_size_degenerate 5 4); apply is_size_t_literal; reflexivity.
Defined.

(** ** toString *)








(** ** availableSize *)

(** X4: [availableSize()] is computed in [size_t].  For [size_t] counters
    it is the exact difference while [downloaded_size <= reserved_size],
    it is [0] only when the two are equal, and when [downloaded_size]
    exceeds [reserved_size] the subtraction underflows to
    [2^64 - (downloaded_size - reserved_size)], a positive value. *)
Theorem availableSize_underflow (s : FileSegment) :
  is_size_t (reserved_size s) -> is_size_t (downloaded_size s) ->
  is_size_t (availableSize s)
  /\ (downloaded_size s <= reserved_size s ->
      availableSize s = reserved_size s - downloaded_size s)
  /\ (reserved_size s < downloaded_size s ->
      availableSize s
      = size_t_modulus - (downloaded_size s - reserved_size s)
      /\ 0 < availableSize s)
  /\ (availableSize s = 0 <-> reserved_size s = downloaded_size s).
Proof.
  intros Hr Hd. unfold availableSize, size_sub, is_size_t in *.
  split; [apply wrap_is_size_t|].
  destruct (Z_lt_le_dec (reserved_size s) (downloaded_size s)) as [Hlt | Hle].
  - rewrite wrap_shift_up by lia.
    split; [lia|]. split; [intros _; lia | lia].
  - rewrite wrap_small by (unfold is_size_t; lia).
    split; [reflexivity|]. split; [lia | lia].
Qed.

Lemma availableSize_underflow_witness :
  let s := set_downloaded_size 40 (create 0 100 EMPTY) in
  is_size_t (availableSize s)
  /\ (downloaded_size s <= reserved_size s ->
      availableSize s = reserved_size s - downloaded_size s)
  /\ (reserved_size s < downloaded_size s ->
      availableSize s
      = size_t_modulus - (downloaded_size s - reserved_size s)
      /\ 0 < availableSize s)
  /\ (availableSize s = 0 <-> reserved_size s = downloaded_size s).
Proof.
  apply (availableSize_underflow (set_downloaded_size 40 (create 0 100 EMPTY)));
    apply is_size_t_literal; reflexivity.
Defined.

(** ** The column [executeImpl] builds *)

Local Open Scope nat_scope.

Lemma terminated_row_length (nn : bool) (written : list byte) :
  length (terminated_row nn written)
  = length written + (if nn then 0 else 1).
Proof.
  unfold terminated_row. destruct nn.
  - rewrite replace_trailing_newline_length. lia.
  - rewrite length_app. reflexivity.
Qed.

Lemma rows_bytes_length_mono (nn : bool) (w : list IColumn -> nat -> list byte)
    (block : list IColumn) (k k' : nat) :
  k <= k' ->
  length (rows_bytes nn w block k) <= length (rows_bytes nn w block k').
Proof.
  induction 1 as [|k' _ IH]; [lia|].
  rewrite rows_bytes_S, length_app. lia.
Qed.

Lemma rows_bytes_length_variants (w : list IColumn -> nat -> list byte)
    (block : list IColumn) (k : nat) :
  length (rows_bytes false w block k) = length (rows_bytes true w block k) + k.
Proof.
  induction k as [|k IH]; [reflexivity|].
  rewrite !rows_bytes_S, !length_app, !terminated_row_length, IH. lia.
Qed.

Lemma stored_rows_write_rows (nn : bool) (w : list IColumn -> nat -> list byte)
    (block : list IColumn) (n k : nat) :
  k <= n ->
  stored_row (write_rows nn w block n {| chars := []; offsets := replicate n 0 |})
    <$> seq 0 k
  = (fun row => terminated_row nn (w block row)) <$> seq 0 k.
Proof.
  induction k as [|k IH]; intros Hk; [reflexivity|].
  rewrite seq_S, !fmap_app, IH by lia. cbn.
  rewrite stored_row_write_rows by lia. reflexivity.
Qed.

(** X5: for a row output format [executeImpl] returns a column with one
    offset per input row; the offsets never decrease and the last one is
    the length of the buffer; the rows they delimit tile the buffer without
    gap or overlap; with no input rows the column is empty. *)
Theorem executeImpl_column_shape (factory : FormatFactory)
    (f : FunctionFormatRow) (writeRow : list IColumn -> nat -> list byte)
    (arguments : list ColumnWithTypeAndName) (input_rows_count : nat) :
  getOutputFormat factory (format_name f) = RowOutputFormat writeRow ->
  exists col,
    executeImpl factory f arguments input_rows_count = Value col
    /\ length (offsets col) = input_rows_count
    /\ (forall i j oi oj,
          i <= j -> offsets col !! i = Some oi -> offsets col !! j = Some oj ->
          oi <= oj)
    /\ (input_rows_count <> 0 -> last (offsets col) = Some (length (chars col)))
    /\ (input_rows_count = 0 -> chars col = [] /\ offsets col = [])
    /\ chars col = concat (stored_row col <$> seq 0 input_rows_count).
Proof.
  intros Hfmt. unfold executeImpl. rewrite Hfmt.
  set (block := materializeBlockInplace (column <$> drop 1 arguments)).
  set (n := input_rows_count).
  destruct (write_rows_spec (no_newline f) writeRow block n n (le_n n))
    as (Hc & Hl & Ho).
  eexists. split; [reflexivity|]. split; [exact Hl|].
  split; [|split; [|split]].
  - intros i j oi oj Hij Hi Hj.
    pose proof (lookup_lt_Some _ _ _ Hi) as Hi'.
    pose proof (lookup_lt_Some _ _ _ Hj) as Hj'.
    rewrite Hl in Hi', Hj'.
    rewrite (Ho i Hi') in Hi. rewrite (Ho j Hj') in Hj.
    inversion Hi. inversion Hj. subst.
    apply rows_bytes_length_mono. lia.
  - intros Hn. rewrite last_lookup, Hl.
    rewrite (Ho (pred n)) by lia.
    replace (S (pred n)) with n by lia. rewrite Hc. reflexivity.
  - intros Hn. subst n. rewrite Hn. split; reflexivity.
  - rewrite stored_rows_write_rows by lia. exact Hc.
Qed.

Lemma executeImpl_column_shape_witness :
  exists col,
    executeImpl csv_factory {| no_newline := true; format_name := "CSV" |}
      csv_arguments 2 = Value col
    /\ length (offsets col) = 2
    /\ (forall i j oi oj,
          i <= j -> offsets col !! i = Some oi -> offsets col !! j = Some oj ->
          oi <= oj)
    /\ (2 <> 0 -> last (offsets col) = Some (length (chars col)))
    /\ (2 = 0 -> chars col = [] /\ offsets col = [])
    /\ chars col = concat (stored_row col <$> seq 0 2).
Proof.
  apply (executeImpl_column_shape csv_factory
           {| no_newline := true; format_name := "CSV" |}
           (fun _ _ => [x61; x0a]) csv_arguments 2).
  reflexivity.
Defined.

(** X6: the string [formatRowNoNewline] presents for a row is what the
    format wrote without its last byte, whatever that byte is.  A row
    written as [line ++ "\n"] is presented as [line], so exactly one
    trailing newline is trimmed; a row that does not end in a newline
    loses its last byte all the same; a row for which nothing was written
    stores nothing. *)
Theorem formatRowNoNewline_drops_last_byte (factory : FormatFactory)
    (format_name_ : string) (writeRow : list IColumn -> nat -> list byte)
    (arguments : list ColumnWithTypeAndName) (input_rows_count row : nat) :
  getOutputFormat factory format_name_ = RowOutputFormat writeRow ->
  row < input_rows_count ->
  let written :=
    writeRow (materializeBlockInplace (column <$> drop 1 arguments)) row in
  exists col,
    executeImpl factory {| no_newline := true; format_name := format_name_ |}
      arguments input_rows_count = Value col
    /\ row_string col row = take (pred (length written)) written
    /\ (forall body b, written = body ++ [b] -> row_string col row = body)
    /\ (forall line, written = line ++ [x0a; x0a] ->
        row_string col row = line ++ [x0a])
    /\ (written = [] -> stored_row col row = []).
Proof.
  intros Hfmt Hrow written. unfold executeImpl.
  cbn [format_name no_newline]. rewrite Hfmt.
  eexists. split; [reflexivity|].
  unfold row_string. rewrite stored_row_write_rows by exact Hrow.
  fold written. unfold terminated_row.
  assert (Htake : take (pred (length (replace_trailing_newline written)))
                    (replace_trailing_newline written)
                  = take (pred (length written)) written).
  { rewrite replace_trailing_newline_length. unfold replace_trailing_newline.
    destruct (last written) as [b|]; [|reflexivity].
    destruct (Byte.eqb b x0a); [|reflexivity].
    apply take_insert_ge. lia. }
  rewrite Htake. split; [reflexivity|]. split; [|split].
  - intros body b ->. apply take_app_length'. rewrite length_app. cbn. lia.
  - intros line ->. change [x0a; x0a] with ([x0a] ++ [x0a]).
    rewrite app_assoc. apply take_app_length'. rewrite !length_app. cbn. lia.
  - intros ->. reflexivity.
Qed.

Lemma formatRowNoNewline_drops_last_byte_witness :
  exists col,
    executeImpl values_factory {| no_newline := true; format_name := "Values" |}
      csv_arguments 2 = Value col
    /\ row_string col 1 = take (pred (length [x28; x31; x29])) [x28; x31; x29]
    /\ (forall body b, [x28; x31; x29] = body ++ [b] -> row_string col 1 = body)
    /\ (forall line, [x28; x31; x29] = line ++ [x0a; x0a] ->
        row_string col 1 = line ++ [x0a])
    /\ ([x28; x31; x29] = [] -> stored_row col 1 = []).
Proof.
  apply (formatRowNoNewline_drops_last_byte values_factory "Values"
           (fun _ _ => [x28; x31; x29]) csv_arguments 2 1).
  - reflexivity.
  - lia.
Defined.

Example formatRowNoNewline_values_row :
  exists col,
    executeImpl values_factory {| no_newline := true; format_name := "Values" |}
      csv_arguments 2 = Value col
    /\ stored_row col 0 = [x28; x31; x29]
    /\ row_string col 0 = [x28; x31].
Proof. eexists. repeat split; reflexivity. Qed.

(** X7: on the same arguments and row format, the buffer of [formatRow] is
    exactly one byte per row longer than the buffer of
    [formatRowNoNewline], and the offset of row [row] is larger by
    [row + 1]. *)
Theorem formatRow_one_byte_longer_per_row (factory : FormatFactory)
    (format_name_ : string) (writeRow : list IColumn -> nat -> list byte)
    (arguments : list ColumnWithTypeAndName) (input_rows_count : nat) :
  getOutputFormat factory format_name_ = RowOutputFormat writeRow ->
  exists col_no_newline col_newline,
    executeImpl factory {| no_newline := true; format_name := format_name_ |}
      arguments input_rows_count = Value col_no_newline
    /\ executeImpl factory {| no_newline := false; format_name := format_name_ |}
         arguments input_rows_count = Value col_newline
    /\ length (chars col_newline)
       = length (chars col_no_newline) + input_rows_count
    /\ (forall row o,
          offsets col_no_newline !! row = Some o ->
          offsets col_newline !! row = Some (o + S row)).
Proof.
  intros Hfmt. unfold executeImpl. cbn [format_name no_newline]. rewrite Hfmt.
  set (block := materializeBlockInplace (column <$> drop 1 arguments)).
  set (n := input_rows_count).
  destruct (write_rows_spec true writeRow block n n (le_n n)) as (Hct & Hlt & Hot).
  destruct (write_rows_spec false writeRow block n n (le_n n)) as (Hcf & Hlf & Hof).
  eexists. eexists. split; [reflexivity|]. split; [reflexivity|]. split.
  - rewrite Hct, Hcf. apply rows_bytes_length_variants.
  - intros row o Ho.
    pose proof (lookup_lt_Some _ _ _ Ho) as Hrow. rewrite Hlt in Hrow.
    rewrite (Hot row Hrow) in Ho. inversion Ho. subst o.
    rewrite (Hof row Hrow), rows_bytes_length_variants. reflexivity.
Qed.

Lemma formatRow_one_byte_longer_per_row_witness :
  exists col_no_newline col_newline,
    executeImpl csv_factory {| no_newline := true; format_name := "CSV" |}
      csv_arguments 2 = Value col_no_newline
    /\ executeImpl csv_factory {| no_newline := false; format_name := "CSV" |}
         csv_arguments 2 = Value col_newline
    /\ length (chars col_newline) = length (chars col_no_newline) + 2
    /\ (forall row o,
          offsets col_no_newline !! row = Some o ->
          offsets col_newline !! row = Some (o + S row)).
Proof.
  apply (formatRow_one_byte_longer_per_row csv_factory "CSV"
           (fun _ _ => [x61; x0a]) csv_arguments 2).
  reflexivity.
Defined.

Lemma replace_trailing_newline_lookup (buffer : list byte) (i : nat) :
  S i < length buffer -> replace_trailing_newline buffer !! i = buffer !! i.
Proof.
  intros Hi. unfold replace_trailing_newline.
  destruct (last buffer) as [b|]; [|reflexivity].
  destruct (Byte.eqb b x0a); [|reflexivity].
  apply list_lookup_insert_ne. lia.
Qed.

(** X8: [formatRowNoNewline] changes nothing of a row but, at most, its
    last byte: every earlier byte is stored as the format wrote it, inner
    newlines included.  No stored row and no buffer it returns ends with a
    newline byte. *)
Theorem formatRowNoNewline_touches_last_byte_only (factory : FormatFactory)
    (format_name_ : string) (writeRow : list IColumn -> nat -> list byte)
    (arguments : list ColumnWithTypeAndName) (input_rows_count row : nat) :
  getOutputFormat factory format_name_ = RowOutputFormat writeRow ->
  row < input_rows_count ->
  let written :=
    writeRow (materializeBlockInplace (column <$> drop 1 arguments)) row in
  exists col,
    executeImpl factory {| no_newline := true; format_name := format_name_ |}
      arguments input_rows_count = Value col
    /\ (forall i, S i < length written -> stored_row col row !! i = written !! i)
    /\ last (stored_row col row) <> Some x0a
    /\ last (chars col) <> Some x0a.
Proof.
  intros Hfmt Hrow written. unfold executeImpl.
  cbn [format_name no_newline]. rewrite Hfmt.
  set (block := materializeBlockInplace (column <$> drop 1 arguments)) in *.
  destruct (write_rows_spec true writeRow block input_rows_count
              input_rows_count (le_n _)) as (Hc & _ & _).
  eexists. split; [reflexivity|].
  rewrite stored_row_write_rows by exact Hrow. fold written.
  unfold terminated_row. split; [|split].
  - intros i Hi. apply replace_trailing_newline_lookup. exact Hi.
  - apply replace_trailing_newline_last.
  - rewrite Hc. apply rows_bytes_last.
Qed.

Lemma formatRowNoNewline_touches_last_byte_only_witness :
  exists col,
    executeImpl csv_factory {| no_newline := true; format_name := "CSV" |}
      csv_arguments 2 = Value col
    /\ (forall i, S i < length [x61; x0a] ->
        stored_row col 1 !! i = [x61; x0a] !! i)
    /\ last (stored_row col 1) <> Some x0a
    /\ last (chars col) <> Some x0a.
Proof.
  apply (formatRowNoNewline_touches_last_byte_only csv_factory "CSV"
           (fun _ _ => [x61; x0a]) csv_arguments 2 1).
  - reflexivity.
  - lia.
Defined.

(** ** Building, then executing *)

Lemma buildImpl_cases (factory : FormatFactory) (nn : bool)
    (arguments : list ColumnWithTypeAndName) (rt : DataType) :
  buildImpl factory nn arguments rt
  = if length arguments <? 2 then Throw NUMBER_OF_ARGUMENTS_DOESNT_MATCH
    else match first_argument_format arguments with
         | Some name_col =>
             if bool_decide (name_col ∈ getAllFormats factory)
             then Value {| function := {| no_newline := nn;
                                          format_name := name_col |};
                           argument_types := type <$> arguments;
                           return_type := rt |}
             else Throw UNKNOWN_FORMAT
         | None => Throw ILLEGAL_TYPE_OF_ARGUMENT
         end.
Proof.
  unfold buildImpl, FunctionFormatRow_new.
  destruct (length arguments <? 2) eqn:E; [reflexivity|].
  destruct arguments as [|first rest]; [discriminate E|]. cbn.
  destruct (checkAndGetColumnConst_String (column first)); [|reflexivity].
  destruct (bool_decide _); reflexivity.
Qed.

(** X9: a function that [buildImpl] has built carries the format named by
    the constant first argument, which is registered, the variant it was
    built for, and one argument type per argument, the format name
    included.  Executing it on a block of [input_rows_count] rows either
    fails with [BAD_ARGUMENTS] or returns a column with exactly
    [input_rows_count] offsets. *)
Theorem buildImpl_then_executeImpl (factory : FormatFactory) (nn : bool)
    (arguments : list ColumnWithTypeAndName) (rt : DataType)
    (fb : FunctionBase) (input_rows_count : nat) :
  buildImpl factory nn arguments rt = Value fb ->
  2 <= length arguments
  /\ first_argument_format arguments = Some (format_name (function fb))
  /\ format_name (function fb) ∈ getAllFormats factory
  /\ no_newline (function fb) = nn
  /\ argument_types fb = type <$> arguments
  /\ length (argument_types fb) = length arguments
  /\ return_type fb = rt
  /\ (executeImpl factory (function fb) arguments input_rows_count
      = Throw BAD_ARGUMENTS
      \/ exists col,
           executeImpl factory (function fb) arguments input_rows_count
           = Value col
           /\ length (offsets col) = input_rows_count).
Proof.
  rewrite buildImpl_cases. intros H.
  destruct (Nat.ltb_spec (length arguments) 2) as [Hlt | Hge]; [discriminate H|].
  destruct (first_argument_format arguments) as [name_col|]; [|discriminate H].
  destruct (bool_decide (name_col ∈ getAllFormats factory)) eqn:E;
    [|discriminate H].
  apply bool_decide_eq_true in E. inversion H. subst fb. cbn.
  repeat split; try assumption; try reflexivity.
  - apply length_fmap.
  - unfold executeImpl. cbn [format_name no_newline].
    destruct (getOutputFormat factory name_col) as [writeRow|]; [right | left; reflexivity].
    eexists. split; [reflexivity|].
    apply (write_rows_spec nn writeRow _ input_rows_count input_rows_count (le_n _)).
Qed.

Lemma buildImpl_then_executeImpl_witness :
  2 <= length csv_arguments
  /\ first_argument_format csv_arguments = Some "CSV"
  /\ "CSV" ∈ getAllFormats csv_factory
  /\ true = true
  /\ [DataTypeString; DataTypeOther "UInt8"] = type <$> csv_arguments
  /\ length [DataTypeString; DataTypeOther "UInt8"] = length csv_arguments
  /\ DataTypeString = DataTypeString
  /\ (executeImpl csv_factory {| no_newline := true; format_name := "CSV" |}
        csv_arguments 2 = Throw BAD_ARGUMENTS
      \/ exists col,
           executeImpl csv_factory {| no_newline := true; format_name := "CSV" |}
             csv_arguments 2 = Value col
           /\ length (offsets col) = 2).
Proof.
  apply (buildImpl_then_executeImpl csv_factory true csv_arguments DataTypeString
           {| function := {| no_newline := true; format_name := "CSV" |};
              argument_types := [DataTypeString; DataTypeOther "UInt8"];
              return_type := DataTypeString |} 2).
  vm_compute. reflexivity.
Defined.

(** X10: [buildImpl] never looks at the output format: a registered format
    that is not a row output format passes the build, for either variant,
    and is refused only when the built function is executed, with
    [BAD_ARGUMENTS]. *)
Theorem non_row_format_fails_at_execution (factory : FormatFactory) (nn : bool)
    (arguments : list ColumnWithTypeAndName) (rt : DataType)
    (name_col : string) (input_rows_count : nat) :
  2 <= length arguments ->
  first_argument_format arguments = Some name_col ->
  name_col ∈ getAllFormats factory ->
  getOutputFormat factory name_col = OtherOutputFormat ->
  exists fb,
    buildImpl factory nn arguments rt = Value fb
    /\ executeImpl factory (function fb) arguments input_rows_count
       = Throw BAD_ARGUMENTS.
Proof.
  intros Hlen Hfirst Hreg Hfmt. rewrite buildImpl_cases.
  destruct (Nat.ltb_spec (length arguments) 2) as [Hlt | _]; [lia|].
  rewrite Hfirst, bool_decide_eq_true_2 by exact Hreg.
  eexists. split; [reflexivity|].
  unfold executeImpl. cbn [function format_name]. rewrite Hfmt. reflexivity.
Qed.

Lemma non_row_format_fails_at_execution_witness :
  exists fb,
    buildImpl native_factory false native_arguments DataTypeString = Value fb
    /\ executeImpl native_factory (function fb) native_arguments 2
       = Throw BAD_ARGUMENTS.
Proof.
  apply (non_row_format_fails_at_execution native_factory false
           native_arguments DataTypeString "Native" 2).
  - cbn. lia.
  - reflexivity.
  - change ("Native" ∈ ({[ "Native" ]} : gset string)).
    apply elem_of_singleton_2. reflexivity.
  - reflexivity.
Defined.

(** X11: [formatRow] and [formatRowNoNewline] validate their arguments
    alike: on the same arguments [buildImpl] throws the same error for
    both, or succeeds for both with functions that differ in the variant
    only. *)
Theorem buildImpl_variants_agree (factory : FormatFactory)
    (arguments : list ColumnWithTypeAndName) (rt : DataType) :
  (forall code,
     buildImpl factory true arguments rt = Throw code
     <-> buildImpl factory false arguments rt = Throw code)
  /\ (forall fb,
        buildImpl factory true arguments rt = Value fb ->
        buildImpl factory false arguments rt
        = Value {| function := {| no_newline := false;
                                  format_name := format_name (function fb) |};
                   argument_types := argument_types fb;
                   return_type := return_type fb |}).
Proof.
  rewrite !buildImpl_cases.
  destruct (length arguments <? 2).
  - split; [intros code; reflexivity | intros fb H; discriminate H].
  - destruct (first_argument_format arguments) as [name_col|].
    + destruct (bool_decide (name_col ∈ getAllFormats factory)).
      * split; [intros code; split; intros H; discriminate H|].
        intros fb H. inversion H. reflexivity.
      * split; [intros code; reflexivity | intros fb H; discriminate H].
    + split; [intros code; reflexivity | intros fb H; discriminate H].
Qed.

Lemma rows_bytes_length_strict (w : list IColumn -> nat -> list byte)
    (block : list IColumn) (k k' : nat) :
  k < k' ->
  length (rows_bytes false w block k) < length (rows_bytes false w block k').
Proof.
  induction 1 as [|k' _ IH].
  - rewrite rows_bytes_S, length_app, terminated_row_length. lia.
  - rewrite rows_bytes_S, length_app. lia.
Qed.

(** X12: [formatRow] returns a well-formed string column whatever the row
    format writes: every stored row ends with the null byte it appended,
    the offsets increase strictly from row to row, and the first one is at
    least [1]. *)
Theorem formatRow_rows_are_terminated (factory : FormatFactory)
    (format_name_ : string) (writeRow : list IColumn -> nat -> list byte)
    (arguments : list ColumnWithTypeAndName) (input_rows_count : nat) :
  getOutputFormat factory format_name_ = RowOutputFormat writeRow ->
  exists col,
    executeImpl factory {| no_newline := false; format_name := format_name_ |}
      arguments input_rows_count = Value col
    /\ (forall row, row < input_rows_count ->
          last (stored_row col row) = Some x00)
    /\ (forall i j oi oj,
          i < j -> offsets col !! i = Some oi -> offsets col !! j = Some oj ->
          oi < oj)
    /\ (forall o, offsets col !! 0 = Some o -> 1 <= o).
Proof.
  intros Hfmt. unfold executeImpl. cbn [format_name no_newline]. rewrite Hfmt.
  set (block := materializeBlockInplace (column <$> drop 1 arguments)).
  set (n := input_rows_count).
  destruct (write_rows_spec false writeRow block n n (le_n n)) as (Hc & Hl & Ho).
  eexists. split; [reflexivity|]. split; [|split].
  - intros row Hrow. rewrite stored_row_write_rows by exact Hrow.
    unfold terminated_row. apply last_snoc.
  - intros i j oi oj Hij Hi Hj.
    pose proof (lookup_lt_Some _ _ _ Hi) as Hi'.
    pose proof (lookup_lt_Some _ _ _ Hj) as Hj'.
    rewrite Hl in Hi', Hj'.
    rewrite (Ho i Hi') in Hi. rewrite (Ho j Hj') in Hj.
    inversion Hi. inversion Hj. subst.
    apply rows_bytes_length_strict. lia.
  - intros o H0.
    pose proof (lookup_lt_Some _ _ _ H0) as Hn. rewrite Hl in Hn.
    rewrite (Ho 0 Hn) in H0. inversion H0.
    pose proof (rows_bytes_length_strict writeRow block 0 1) as Hs.
    cbn [rows_bytes] in Hs. lia.
Qed.

Lemma formatRow_rows_are_terminated_witness :
  exists col,
    executeImpl values_factory {| no_newline := false; format_name := "Values" |}
      csv_arguments 2 = Value col
    /\ (forall row, row < 2 -> last (stored_row col row) = Some x00)
    /\ (forall i j oi oj,
          i < j -> offsets col !! i = Some oi -> offsets col !! j = Some oj ->
          oi < oj)
    /\ (forall o, offsets col !! 0 = Some o -> 1 <= o).
Proof.
  apply (formatRow_rows_are_terminated values_factory "Values"
           (fun _ _ => [x28; x31; x29]) csv_arguments 2).
  reflexivity.
Defined.
